(** * Doctorino: the ECG denoising, segmentation and aggregation pipeline

    A shallow embedding of

    - [backend/ecg/ecg_classification_api.py]:
      [hierarchical_kalman_filter], [process_ecg_data], [predict_segment],
      [calculate_final_prediction], [CLASS_MAPPING];
    - [backend/routers/files.py]: the segment loop of [upload_ecg_files]
      (its handler that substitutes a simulated random signal is left out);
    - [backend/core/config.py]: the Kalman and plot settings.

    Number model.  Python floats are read as exact rationals ([Q]); the
    comparison [==] of Python is [Qeq].  Rounding, overflow, infinities and
    NaN are outside the model.  What Python raises is kept: every fallible
    operation returns a [result].

    Where rounding decides a property, the filter is replayed over binary64
    (module [F64], on the IEEE 754 operations of [SpecFloat]): a statement
    proved over [Q] is a statement about exact arithmetic, and is marked so
    where it does not carry over to doubles. *)

From Stdlib Require Import List Sorted ZArith QArith Qround String Bool Arith Lia Lqa.
From Stdlib Require Import ListDec Ascii Permutation.
From Stdlib Require Import SpecFloat.
Import ListNotations.

Open Scope string_scope.
Open Scope Q_scope.

(** ** Exceptions and the error monad *)

Module Py.

(** The exception classes the modelled code can raise.  [RuntimeError]
    stands for any failure of an external library (torch, matplotlib);
    [HTTPException] carries its status code. *)
Inductive exn : Type :=
| IndexError
| ZeroDivisionError
| ValueError
| KeyError
| RuntimeError
| HTTPException (status_code : Z).

Inductive result (A : Type) : Type :=
| Return (a : A)
| Raise (e : exn).

Arguments Return {A} a.
Arguments Raise {A} e.

Definition bind {A B : Type} (m : result A) (k : A -> result B) : result B :=
  match m with
  | Return a => k a
  | Raise e => Raise e
  end.

(** [try: body except Exception: handler] *)
Definition try_except {A : Type} (body : result A) (handler : exn -> result A)
  : result A :=
  match body with
  | Return a => Return a
  | Raise e => handler e
  end.

Definition is_return {A : Type} (m : result A) : bool :=
  match m with
  | Return _ => true
  | Raise _ => false
  end.

(** [l[i]] for [0 <= i]; out of range raises [IndexError]. *)
Definition getitem {A : Type} (l : list A) (i : nat) : result A :=
  match nth_error l i with
  | Some x => Return x
  | None => Raise IndexError
  end.

(** [l[i:j]] for [0 <= i]; slices clamp, they never raise. *)
Definition slice {A : Type} (l : list A) (i j : nat) : list A :=
  firstn (j - i) (skipn i l).

(** [l[:n]], where a negative [n] counts from the end. *)
Definition slice_to {A : Type} (l : list A) (n : Z) : list A :=
  if (n <? 0)%Z
  then firstn (Z.to_nat (Z.of_nat (List.length l) + n)) l
  else firstn (Z.to_nat n) l.

(** [range(start, stop, step)] for a positive [step]: the elements
    [start + k * step] below [stop]. *)
Definition range (start stop step : Z) : list Z :=
  map (fun k => (start + Z.of_nat k * step)%Z)
      (seq 0 (Z.to_nat ((stop - start + step - 1) / step))).

(** [a / b] on floats. *)
Definition div (a b : Q) : result Q :=
  if Qeq_bool b 0 then Raise ZeroDivisionError else Return (a / b).

(** [round(x, 2)]: to the nearest hundredth, ties to the even one. *)
Definition round_half_even (q : Q) : Z :=
  let f := Qfloor q in
  match Qcompare (q - inject_Z f) (1 # 2) with
  | Lt => f
  | Gt => (f + 1)%Z
  | Eq => if Z.even f then f else (f + 1)%Z
  end.

Definition round2 (q : Q) : Q :=
  inject_Z (round_half_even (q * 100)) / 100.

End Py.

Import Py.

Notation "x <- m ;; k" := (bind m (fun x => k))
  (at level 61, m at next level, right associativity).
Notation "' pat <- m ;; k" := (bind m (fun x => match x with pat => k end))
  (at level 61, pat pattern, m at next level, right associativity).

(** ** Settings ([core/config.py]) *)

Record KalmanFilterSettings : Type := {
  Q1 : Q;
  R1 : Q;
  Q2 : Q;
  R2 : Q
}.

Record Settings : Type := {
  kalman_filter : KalmanFilterSettings;
  plot_figsize : Z * Z;
  plot_sample_size : Z
}.

Definition default_kalman_filter : KalmanFilterSettings :=
  {| Q1 := 1 # 1000; R1 := 10; Q2 := 1 # 1000; R2 := 1 |}.

Definition settings : Settings :=
  {| kalman_filter := default_kalman_filter;
     plot_figsize := (12, 6)%Z;
     plot_sample_size := 1000 |}.

(** ** The cascaded Kalman filter *)

(** What one pass through the body of either [for i in range(n)] loop
    computes: the gain [K], the new estimate [x_hat], stored in
    [filtered_signal[i]], and the new covariance [p]. *)
Record KalmanStep : Type := {
  step_K : Q;
  step_x_hat : Q;
  step_p : Q
}.

Definition kalman_update (Qn Rn : Q) (x_hat p z : Q) : result KalmanStep :=
  let x_hat_minus := x_hat in
  let p_minus := p + Qn in
  K <- div p_minus (p_minus + Rn) ;;
  let x_hat' := x_hat_minus + K * (z - x_hat_minus) in
  let p' := (1 - K) * p_minus in
  Return {| step_K := K; step_x_hat := x_hat'; step_p := p' |}.

(** The loop over the samples, with the record of every iteration. *)
Fixpoint kalman_loop (Qn Rn : Q) (samples : list Q) (x_hat p : Q)
  : result (list KalmanStep) :=
  match samples with
  | [] => Return []
  | z :: rest =>
      st <- kalman_update Qn Rn x_hat p z ;;
      tr <- kalman_loop Qn Rn rest (step_x_hat st) (step_p st) ;;
      Return (st :: tr)
  end.

(** Both stages of [hierarchical_kalman_filter], with the iterations of
    each: [signal[0]] raises [IndexError] on an empty signal. *)
Definition hierarchical_kalman_trace (signal : list Q) (Q1 R1 Q2 R2 : Q)
  : result (list KalmanStep * list KalmanStep) :=
  x_hat <- getitem signal 0 ;;
  tr1 <- kalman_loop Q1 R1 signal x_hat 1 ;;
  let filtered_signal1 := map step_x_hat tr1 in
  x_hat <- getitem filtered_signal1 0 ;;
  tr2 <- kalman_loop Q2 R2 filtered_signal1 x_hat 1 ;;
  Return (tr1, tr2).

Definition hierarchical_kalman_filter (signal : list Q) (Q1 R1 Q2 R2 : Q)
  : result (list Q) :=
  '(_, tr2) <- hierarchical_kalman_trace signal Q1 R1 Q2 R2 ;;
  let filtered_signal2 := map step_x_hat tr2 in
  Return filtered_signal2.

(** ** Labels, dictionaries and counters *)

Definition CLASS_MAPPING : list (nat * string) :=
  [ (0%nat, "Normal Beat (N)");
    (1%nat, "Atrial Premature Beat (A)");
    (2%nat, "Ventricular Premature Beat (V)");
    (3%nat, "Left Bundle Branch Block Beat (L)");
    (4%nat, "Right Bundle Branch Block Beat (R)") ].

(** [CLASS_MAPPING.values()] *)
Definition LABELS : list string := map snd CLASS_MAPPING.

(** A dict is an association list in insertion order; the keys of a dict
    are pairwise distinct ([dict_wf]). *)
Definition dict (V : Type) : Type := list (string * V).

Definition keys {V : Type} (d : dict V) : list string := map fst d.

Definition values {V : Type} (d : dict V) : list V := map snd d.

Definition dict_wf {V : Type} (d : dict V) : Prop := NoDup (keys d).

(** [d.get(k)] *)
Fixpoint dict_get {V : Type} (d : dict V) (k : string) : option V :=
  match d with
  | [] => None
  | (k', v) :: d' => if String.eqb k' k then Some v else dict_get d' k
  end.

(** [CLASS_MAPPING[i]] *)
Definition class_name (i : nat) : result string :=
  match find (fun kv => Nat.eqb (fst kv) i) CLASS_MAPPING with
  | Some kv => Return (snd kv)
  | None => Raise KeyError
  end.

(** [collections.Counter]: a dict of counts; a key enters at its first
    occurrence and keeps that place. *)
Definition Counter : Type := dict nat.

Fixpoint counter_incr (c : Counter) (k : string) : Counter :=
  match c with
  | [] => [(k, 1%nat)]
  | (k', n) :: c' =>
      if String.eqb k' k then (k', S n) :: c' else (k', n) :: counter_incr c' k
  end.

(** [Counter(iterable)] *)
Definition Counter_of (xs : list string) : Counter :=
  fold_left counter_incr xs [].

(** [c[k]]: the count, 0 for a key that is absent. *)
Definition counter_getitem (c : Counter) (k : string) : nat :=
  match dict_get c k with
  | Some n => n
  | None => 0%nat
  end.

(** [max(iterable, key=...)]: the first element whose key is maximal;
    [ValueError] on an empty iterable. *)
Fixpoint max_from {A : Type} (key : A -> nat) (best : A) (rest : list A) : A :=
  match rest with
  | [] => best
  | x :: rest' =>
      if (key best <? key x)%nat
      then max_from key x rest'
      else max_from key best rest'
  end.

Definition py_max {A : Type} (key : A -> nat) (xs : list A) : result A :=
  match xs with
  | [] => Raise ValueError
  | x :: rest => Return (max_from key x rest)
  end.

(** [d[k] += v] on a dict of floats; [KeyError] when [k] is absent. *)
Fixpoint dict_iadd (d : dict Q) (k : string) (v : Q) : result (dict Q) :=
  match d with
  | [] => Raise KeyError
  | (k', x) :: d' =>
      if String.eqb k' k then Return ((k', x + v) :: d')
      else d'' <- dict_iadd d' k v ;; Return ((k', x) :: d'')
  end.

(** A [for] loop whose body may raise: the state is threaded through. *)
Fixpoint for_each {A S : Type} (xs : list A) (body : S -> A -> result S) (s : S)
  : result S :=
  match xs with
  | [] => Return s
  | x :: xs' => s' <- body s x ;; for_each xs' body s'
  end.

(** A comprehension whose element expression may raise. *)
Fixpoint map_m {A B : Type} (f : A -> result B) (xs : list A) : result (list B) :=
  match xs with
  | [] => Return []
  | x :: xs' => y <- f x ;; ys <- map_m f xs' ;; Return (y :: ys)
  end.

Fixpoint enumerate_from {A : Type} (i : nat) (xs : list A) : list (nat * A) :=
  match xs with
  | [] => []
  | x :: xs' => (i, x) :: enumerate_from (S i) xs'
  end.

Definition enumerate {A : Type} (xs : list A) : list (nat * A) :=
  enumerate_from 0 xs.

(** ** Segment results and their aggregation *)

(** One entry of [results] in [upload_ecg_files]. *)
Record SegmentResult : Type := {
  segment : Z;
  prediction : string;
  probabilities : dict Q
}.

(** The dict returned by [calculate_final_prediction]; [final_class] is its
    key ['class']. *)
Record AggregateResult : Type := {
  final_class : string;
  confidence : Q;
  distribution : Counter;
  average_probabilities : dict Q
}.

(** [max(class_counts, key=class_counts.get)] runs over the keys of the
    counter, where [get] and [class_counts[...]] agree.  The division by
    [len(predictions)] is reached only after [max] has accepted a non-empty
    counter. *)
Definition calculate_final_prediction (predictions : list SegmentResult)
  : result AggregateResult :=
  let class_counts := Counter_of (map prediction predictions) in
  final_class <- py_max (counter_getitem class_counts) (keys class_counts) ;;
  let n := inject_Z (Z.of_nat (List.length predictions)) in
  ratio <- div (inject_Z (Z.of_nat (counter_getitem class_counts final_class))) n ;;
  let confidence := ratio * 100 in
  let total_probabilities : dict Q := map (fun cls => (cls, 0)) LABELS in
  total_probabilities <-
    for_each predictions
      (fun total prediction =>
         for_each (probabilities prediction)
           (fun total '(cls, prob) => dict_iadd total cls prob) total)
      total_probabilities ;;
  average_probabilities <-
    map_m (fun '(cls, prob) => avg <- div prob n ;; Return (cls, avg))
          total_probabilities ;;
  Return {| final_class := final_class;
            confidence := round2 confidence;
            distribution := class_counts;
            average_probabilities := average_probabilities |}.

(** ** The external capabilities: plotting and the classifier *)

Section Pipeline.

(** [matplotlib] drawing the two curves and [base64] encoding the picture
    (lines 198-215 of [process_ecg_data]). *)
Variable render_plot : Z * Z -> list Q -> list Q -> result string.

(** A loaded model with the torch computation of lines 237-250: forward
    pass, [argmax] and [softmax] for one segment. *)
Definition Model : Type := list Q -> result (nat * list Q).

(** [load_ecg_model()]: the model, [None], or an exception. *)
Variable load_ecg_model : result (option Model).

(** [process_ecg_data]: every exception of the body is caught and turned
    into the pair [(None, None)]. *)
Definition process_ecg_data (cfg : Settings) (data : list Q)
  : result (option (list Q) * option string) :=
  try_except
    (let kf_settings := kalman_filter cfg in
     denoised_data <-
       hierarchical_kalman_filter data
         (Q1 kf_settings) (R1 kf_settings) (Q2 kf_settings) (R2 kf_settings) ;;
     graph <-
       render_plot (plot_figsize cfg)
         (slice_to data (plot_sample_size cfg))
         (slice_to denoised_data (plot_sample_size cfg)) ;;
     Return (Some denoised_data, Some graph))
    (fun _ => Return (None, None)).

(** [np.zeros(5)] with entry 0 set to 1.0 *)
Definition default_probs : list Q := [1; 0; 0; 0; 0].

(** [predict_segment]: the whole body is inside [try]; the handler returns
    the default prediction. *)
Definition predict_segment (segment : list Q) : result (nat * list Q) :=
  try_except
    (ecg_model <- load_ecg_model ;;
     match ecg_model with
     | None => Return (0%nat, default_probs)
     | Some model =>
         '(predicted_class, probabilities) <- model segment ;;
         Return (predicted_class, probabilities)
     end)
    (fun _ => Return (0%nat, default_probs)).

(** The body of the segment loop of [upload_ecg_files] (lines 98-106).
    [predict_segment] returns an integer class on every path, so the test
    [pred_class is not None] always passes. *)
Definition segment_body (denoised_data : list Q) (results : list SegmentResult)
  (i : Z) : result (list SegmentResult) :=
  let segment := slice denoised_data (Z.to_nat i) (Z.to_nat (i + 300)) in
  if (List.length segment =? 300)%nat then
    '(pred_class, probs) <- predict_segment segment ;;
    name <- class_name pred_class ;;
    probs_dict <-
      map_m (fun '(i, prob) => cls <- class_name i ;; Return (cls, prob))
            (enumerate probs) ;;
    Return (results ++ [ {| segment := (i / 300 + 1)%Z;
                            prediction := name;
                            probabilities := probs_dict |} ])%list
  else Return results.

(** Lines 96-106: [for i in range(0, len(denoised_data) - 300, 300)]. *)
Definition segment_results (denoised_data : list Q) : result (list SegmentResult) :=
  for_each (range 0 (Z.of_nat (List.length denoised_data) - 300) 300)
           (segment_body denoised_data) [].

End Pipeline.

(** ** Loading the model ([load_ecg_model]) *)

Module Loader.
Section Loader.

(** A torch module object; what the externals do inside it is not modelled. *)
Variable ModelObj : Type.

(** [LSTM()] *)
Variable LSTM : result ModelObj.

(** [os.path.exists(model_path)] *)
Variable path_exists : bool.

(** [model.load_state_dict(torch.load(model_path, map_location=device))] *)
Variable load_state_dict : ModelObj -> result unit.

(** [model.eval()] *)
Variable eval : ModelObj -> result unit.

(** [load_ecg_model()], with the module-level variable [model] passed in
    and out.  The assignment [model = LSTM()] precedes the [try]; inside it
    a missing file returns at once, and a failure goes to the handler, which
    calls [model.eval()] and falls through to [return model]. *)
Definition load_ecg_model (model : option ModelObj)
  : result ModelObj * option ModelObj :=
  match model with
  | Some m => (Return m, model)
  | None =>
      match LSTM with
      | Raise e => (Raise e, None)
      | Return m =>
          (try_except
             (if negb path_exists then
                _ <- eval m ;; Return m
              else
                _ <- load_state_dict m ;;
                _ <- eval m ;;
                Return m)
             (fun _ => _ <- eval m ;; Return m),
           Some m)
      end
  end.

End Loader.
End Loader.

(** ** Stored paths ([get_file_path]) *)

Module Paths.

(** [s.startswith(p)] *)
Definition startswith (s p : string) : bool := String.prefix p s.

(** [s.endswith(suffix)] *)
Fixpoint endswith (s suffix : string) : bool :=
  String.eqb s suffix
  || match s with
     | EmptyString => false
     | String _ s' => endswith s' suffix
     end.

(** [s[n:]] *)
Fixpoint drop (n : nat) (s : string) : string :=
  match n, s with
  | O, _ => s
  | S n', EmptyString => EmptyString
  | S n', String _ s' => drop n' s'
  end.

(** [s.replace(old, new, 1)]: the first occurrence of [old] is replaced. *)
Fixpoint replace_first (old new s : string) : string :=
  if String.prefix old s then new ++ drop (String.length old) s
  else match s with
       | EmptyString => EmptyString
       | String c s' => String c (replace_first old new s')
       end.

(** [os.path.join(a, b)] of [posixpath]: an absolute [b] discards [a]. *)
Definition path_join (a b : string) : string :=
  if startswith b "/" then b
  else if String.eqb a "" || endswith a "/" then a ++ b
  else a ++ "/" ++ b.

(** [get_file_path] of [ecg_classification_api.py]; [base_dir] is the
    directory of the module, [upload_folder] is [settings.upload_folder]. *)
Definition get_file_path (base_dir upload_folder relative_path : string)
  : string :=
  let relative_path :=
    if negb (startswith relative_path upload_folder) then
      if startswith relative_path "uploads"
         && negb (String.eqb upload_folder "uploads")
      then replace_first "uploads" upload_folder relative_path
      else relative_path
    else relative_path in
  path_join base_dir relative_path.

End Paths.

(** ** The upload route ([upload_ecg_files]) *)

(** An uploaded file, as far as the route looks at it: its [filename]. *)
Record UploadFile : Type := {
  filename : option string
}.

(** The dict the route returns; [note] is present on the simulated path. *)
Record Response : Type := {
  signal_plot : option string;
  predictions : list SegmentResult;
  final_prediction : AggregateResult;
  note : option string
}.

Section Upload.

Variable render_plot : Z * Z -> list Q -> list Q -> result string.
Variable load_ecg_model : result (option Model).
Variable cfg : Settings.

(** [os.makedirs(record_dir, exist_ok=True)], with [record_dir] built from
    the clock and a random id. *)
Variable record_dir : string.
Variable makedirs : result unit.

(** [open(file_path, "wb")] and [shutil.copyfileobj]. *)
Variable save_file : UploadFile -> string -> result unit.

(** Lines 61-75: the record path, from the base name of one of the saved
    paths; they go through a [set], whose order Python leaves open. *)
Variable record_path_of : list string -> string.

(** [wfdb.rdrecord(record_path).p_signal[:, 0]] *)
Variable rdrecord : string -> result (list Q).

(** The sine wave of 2000 points with random noise added. *)
Variable test_signal : list Q.

(** Lines 86-132: the analysis of the record's signal.  (The dict
    [analysis_data] built on the way is not used afterwards.) *)
Definition analyze_record (signal : list Q) : result Response :=
  '(denoised_data, signal_plot) <- process_ecg_data render_plot cfg signal ;;
  match denoised_data with
  | None => Raise (HTTPException 500)
  | Some denoised_data =>
      results <- segment_results load_ecg_model denoised_data ;;
      match results with
      | [] => Raise (HTTPException 500)
      | _ :: _ =>
          final_prediction <- calculate_final_prediction results ;;
          Return {| signal_plot := signal_plot;
                    predictions := results;
                    final_prediction := final_prediction;
                    note := None |}
      end
  end.

(** Lines 143-179: the same analysis on the simulated signal, without the
    test for an empty [results]. *)
Definition analyze_simulated : result Response :=
  '(denoised_data, signal_plot) <- process_ecg_data render_plot cfg test_signal ;;
  match denoised_data with
  | None => Raise (HTTPException 500)
  | Some denoised_data =>
      results <- segment_results load_ecg_model denoised_data ;;
      final_prediction <- calculate_final_prediction results ;;
      Return {| signal_plot := signal_plot;
                predictions := results;
                final_prediction := final_prediction;
                note := Some "Using simulated ECG data due to processing error" |}
  end.

(** Lines 47-53: every file with a non-empty name is saved. *)
Definition save_body (file_paths : list string) (f : UploadFile)
  : result (list string) :=
  match filename f with
  | Some name =>
      if String.eqb name "" then Return file_paths
      else
        let file_path := Paths.path_join record_dir name in
        _ <- save_file f file_path ;;
        Return (file_paths ++ [file_path])%list
  | None => Return file_paths
  end.

(** [upload_ecg_files]: the outer [try] turns every exception, those the
    route raises itself included, into status 500; the inner [try] turns
    every failure of the record's analysis into the simulated analysis. *)
Definition upload_ecg_files (file : list UploadFile) : result Response :=
  try_except
    (match file with
     | [] => Raise (HTTPException 400)
     | _ :: _ =>
         _ <- makedirs ;;
         file_paths <- for_each file save_body [] ;;
         match file_paths with
         | [] => Raise (HTTPException 400)
         | _ :: _ =>
             let record_path := record_path_of file_paths in
             try_except
               (signal <- rdrecord record_path ;; analyze_record signal)
               (fun _ => analyze_simulated)
         end
     end)
    (fun _ => Raise (HTTPException 500)).

End Upload.

(** ** The filter over binary64 *)

(** Doubles: precision 53, largest exponent 1024, every operation rounded
    to nearest, ties to even. *)
Module F64.

Definition prec : Z := 53.
Definition emax : Z := 1024.

Definition float : Type := spec_float.

(** The double nearest to [m * 2^e]. *)
Definition b64 (m e : Z) : float := binary_normalize prec emax m e false.

Definition zero : float := S754_zero false.
Definition one : float := b64 1 0.

Definition add : float -> float -> float := SFadd prec emax.
Definition sub : float -> float -> float := SFsub prec emax.
Definition mul : float -> float -> float := SFmul prec emax.
Definition fdiv : float -> float -> float := SFdiv prec emax.
Definition eqb : float -> float -> bool := SFeqb.
Definition ltb : float -> float -> bool := SFltb.

(** [a / b] on floats: a zero divisor, of either sign, raises. *)
Definition div (a b : float) : result float :=
  if eqb b zero then Raise ZeroDivisionError else Return (fdiv a b).

Record KalmanStep : Type := {
  step_K : float;
  step_x_hat : float;
  step_p : float
}.

(** The loop body of [hierarchical_kalman_filter], operation by
    operation. *)
Definition kalman_update (Qn Rn x_hat p z : float) : result KalmanStep :=
  let x_hat_minus := x_hat in
  let p_minus := add p Qn in
  K <- div p_minus (add p_minus Rn) ;;
  let x_hat' := add x_hat_minus (mul K (sub z x_hat_minus)) in
  let p' := mul (sub one K) p_minus in
  Return {| step_K := K; step_x_hat := x_hat'; step_p := p' |}.

Fixpoint kalman_loop (Qn Rn : float) (samples : list float) (x_hat p : float)
  : result (list KalmanStep) :=
  match samples with
  | [] => Return []
  | z :: rest =>
      st <- kalman_update Qn Rn x_hat p z ;;
      tr <- kalman_loop Qn Rn rest (step_x_hat st) (step_p st) ;;
      Return (st :: tr)
  end.

Definition hierarchical_kalman_trace (signal : list float)
  (Q1 R1 Q2 R2 : float) : result (list KalmanStep * list KalmanStep) :=
  x_hat <- getitem signal 0 ;;
  tr1 <- kalman_loop Q1 R1 signal x_hat one ;;
  let filtered_signal1 := map step_x_hat tr1 in
  x_hat <- getitem filtered_signal1 0 ;;
  tr2 <- kalman_loop Q2 R2 filtered_signal1 x_hat one ;;
  Return (tr1, tr2).

Definition hierarchical_kalman_filter (signal : list float)
  (Q1 R1 Q2 R2 : float) : result (list float) :=
  '(_, tr2) <- hierarchical_kalman_trace signal Q1 R1 Q2 R2 ;;
  let filtered_signal2 := map step_x_hat tr2 in
  Return filtered_signal2.

End F64.

(** * Vocabulary of the statements *)

(** ** Kalman iterations *)

(** The gain is strictly inside the unit interval and the covariance is
    strictly positive. *)
Definition step_ok (st : KalmanStep) : Prop :=
  0 < step_K st /\ step_K st < 1 /\ 0 < step_p st.

(** ** Counting labels *)

(** How many of the predictions carry the label [l]. *)
Definition occurrences (l : string) (predictions : list SegmentResult) : nat :=
  count_occ string_dec (map prediction predictions) l.

(** [xs.index(l)], and [len(xs)] when [l] does not occur. *)
Fixpoint first_index (l : string) (xs : list string) : nat :=
  match xs with
  | [] => 0%nat
  | x :: xs' => if String.eqb x l then 0%nat else S (first_index l xs')
  end.

(** [a] occurs in [xs] before [b] does. *)
Definition earlier_in (xs : list string) (a b : string) : Prop :=
  (first_index a xs < first_index b xs)%nat.

(** ** Probability vectors *)

Definition Qsum (xs : list Q) : Q := fold_right Qplus 0 xs.

(** The probability a vector gives to a label, 0 when the label is absent. *)
Definition prob_of (l : string) (d : dict Q) : Q :=
  match dict_get d l with
  | Some v => v
  | None => 0
  end.

(** What the inner loop adds to [total_probabilities[l]] for one vector. *)
Fixpoint contribution (l : string) (d : dict Q) : Q :=
  match d with
  | [] => 0
  | (k, v) :: d' =>
      if String.eqb k l then v + contribution l d' else contribution l d'
  end.

(** A probability vector as [upload_ecg_files] builds it: a dict whose keys
    are among the five labels. *)
Definition probs_ok (r : SegmentResult) : Prop :=
  dict_wf (probabilities r) /\ incl (keys (probabilities r)) LABELS.

Definition eps : Q := 1 # 1000000.

Definition mean_probability (l : string) (predictions : list SegmentResult) : Q :=
  Qsum (map (fun r => prob_of l (probabilities r)) predictions)
  / inject_Z (Z.of_nat (List.length predictions)).

(** ** Windows and the classifier *)

(** The number of iterations of [range(0, N - 300, 300)]. *)
Definition segment_count (N : nat) : nat :=
  Z.to_nat ((Z.of_nat N - 1) / 300).

(** The window of iteration [k] (from 0): [denoised_data[300k : 300k+300]]. *)
Definition window (denoised_data : list Q) (k : nat) : list Q :=
  slice denoised_data (k * 300) (k * 300 + 300).

(** The classifier is unavailable, or raises on this segment. *)
Definition classifier_fails (load_ecg_model : result (option Model))
  (segment : list Q) : Prop :=
  match load_ecg_model with
  | Raise _ => True
  | Return None => True
  | Return (Some model) => is_return (model segment) = false
  end.

(** The contract of the classifier: a class id below 5 and 5 probabilities. *)
Definition model_well_formed (load_ecg_model : result (option Model)) : Prop :=
  forall model segment c ps,
    load_ecg_model = Return (Some model) ->
    model segment = Return (c, ps) ->
    (c < 5)%nat /\ List.length ps = 5%nat.

(** Entry [k] (from 0) of [results] holds what [predict_segment] said of
    window [k]. *)
Definition entry_of (load_ecg_model : result (option Model))
  (denoised_data : list Q) (k : nat) (r : SegmentResult) : Prop :=
  segment r = (Z.of_nat k + 1)%Z
  /\ exists c ps,
       predict_segment load_ecg_model (window denoised_data k) = Return (c, ps)
       /\ class_name c = Return (prediction r)
       /\ probabilities r = combine LABELS ps
       /\ List.length ps = 5%nat.

(** ** Concrete inputs *)

(** One segment, predicted Normal, and its aggregate. *)
Definition normal_only : SegmentResult :=
  {| segment := 1;
     prediction := "Normal Beat (N)";
     probabilities := [("Normal Beat (N)", 1)] |}.

Definition normal_only_aggregate : AggregateResult :=
  {| final_class := "Normal Beat (N)";
     confidence := 10000 # 100;
     distribution := [("Normal Beat (N)", 1%nat)];
     average_probabilities :=
       [("Normal Beat (N)", 1 # 1);
        ("Atrial Premature Beat (A)", 0 # 1);
        ("Ventricular Premature Beat (V)", 0 # 1);
        ("Left Bundle Branch Block Beat (L)", 0 # 1);
        ("Right Bundle Branch Block Beat (R)", 0 # 1)] |}.

(** Four segments, two labels with two votes each; Atrial comes first. *)
Definition tie_predictions : list SegmentResult :=
  [ {| segment := 1; prediction := "Atrial Premature Beat (A)";
       probabilities := [("Atrial Premature Beat (A)", 1)] |};
    {| segment := 2; prediction := "Normal Beat (N)";
       probabilities := [("Normal Beat (N)", 1)] |};
    {| segment := 3; prediction := "Normal Beat (N)";
       probabilities := [("Normal Beat (N)", 1)] |};
    {| segment := 4; prediction := "Atrial Premature Beat (A)";
       probabilities := [("Atrial Premature Beat (A)", 1)] |} ].

Definition tie_aggregate : AggregateResult :=
  {| final_class := "Atrial Premature Beat (A)";
     confidence := 5000 # 100;
     distribution :=
       [("Atrial Premature Beat (A)", 2%nat); ("Normal Beat (N)", 2%nat)];
     average_probabilities :=
       [("Normal Beat (N)", 2 # 4);
        ("Atrial Premature Beat (A)", 2 # 4);
        ("Ventricular Premature Beat (V)", 0 # 4);
        ("Left Bundle Branch Block Beat (L)", 0 # 4);
        ("Right Bundle Branch Block Beat (R)", 0 # 4)] |}.

(** Two segments with full vectors over the five labels. *)
Definition two_vectors : list SegmentResult :=
  [ {| segment := 1; prediction := "Normal Beat (N)";
       probabilities := combine LABELS [9 # 10; 1 # 10; 0; 0; 0] |};
    {| segment := 2; prediction := "Atrial Premature Beat (A)";
       probabilities := combine LABELS [2 # 10; 7 # 10; 1 # 10; 0; 0] |} ].

(** The entry of a segment that fell back to the default prediction. *)
Definition fallback_entry (i : Z) : SegmentResult :=
  {| segment := i;
     prediction := "Normal Beat (N)";
     probabilities := combine LABELS default_probs |}.

(** A classifier that raises on a window starting at or below 0 and
    answers class 1 otherwise. *)
Definition flaky_model : Model :=
  fun segment =>
    match segment with
    | [] => Raise RuntimeError
    | x :: _ =>
        if Qle_bool x 0 then Raise RuntimeError
        else Return (1%nat, [1 # 10; 9 # 10; 0; 0; 0])
    end.

(** 601 samples: a window of zeros, then a window of ones. *)
Definition mixed_signal : list Q := (repeat 0 300 ++ repeat 1 301)%list.

(** ** Further vocabulary *)

(** Two iterations with the same gain and the same covariance. *)
Definition same_schedule (st' st : KalmanStep) : Prop :=
  step_K st' = step_K st /\ step_p st' = step_p st.

(** [st'] is [st] with the estimate mapped by [v |-> a * v + b]. *)
Definition affine_image (a b : Q) (st' st : KalmanStep) : Prop :=
  same_schedule st' st /\ step_x_hat st' == a * step_x_hat st + b.

(** A plot that never fails. *)
Definition plot_total
  (render_plot : Z * Z -> list Q -> list Q -> result string) : Prop :=
  forall figsize a b, exists graph, render_plot figsize a b = Return graph.

(** Strictly positive Kalman settings. *)
Definition kalman_settings_positive (cfg : Settings) : Prop :=
  0 < Q1 (kalman_filter cfg) /\ 0 < R1 (kalman_filter cfg)
  /\ 0 < Q2 (kalman_filter cfg) /\ 0 < R2 (kalman_filter cfg).

(** A plot that always returns the same picture, and one that always fails. *)
Definition plot_ok : Z * Z -> list Q -> list Q -> result string :=
  fun _ _ _ => Return "png".

Definition plot_broken : Z * Z -> list Q -> list Q -> result string :=
  fun _ _ _ => Raise RuntimeError.

(** A classifier that answers class 7. *)
Definition rogue_model : Model :=
  fun _ => Return (7%nat, [0; 0; 0; 0; 0]).

(** A prediction whose vector has a key outside the five labels. *)
Definition foreign_key_prediction : SegmentResult :=
  {| segment := 1;
     prediction := "Normal Beat (N)";
     probabilities := [("Normal Beat (N)", 1 # 2); ("Paced Beat (P)", 1 # 2)] |}.

(** Two files of one record, and a file without a name. *)
Definition one_record : list UploadFile :=
  [ {| filename := Some "100.dat" |}; {| filename := Some "100.hea" |} ].

Definition unnamed_file : UploadFile := {| filename := None |}.

(** No model is loaded: every segment gets the default prediction. *)
Definition no_model : result (option Model) := Return None.

(** Externals that succeed. *)
Definition save_ok : UploadFile -> string -> result unit :=
  fun _ _ => Return tt.

Definition first_path : list string -> string :=
  fun paths => match paths with [] => "" | p :: _ => p end.

(** [tie_predictions] with its first two segments exchanged, and the
    aggregate of that list. *)
Definition swapped_predictions : list SegmentResult :=
  match tie_predictions with
  | a :: b :: rest => b :: a :: rest
  | other => other
  end.

Definition swapped_aggregate : AggregateResult :=
  Eval vm_compute in
    match calculate_final_prediction swapped_predictions with
    | Return agg => agg
    | Raise _ => tie_aggregate
    end.

(** [agg] is the aggregate of all of [results]: its class is a most
    frequent label, its distribution counts every result, and its averages
    are the means over every result. *)
Definition aggregate_of (results : list SegmentResult) (agg : AggregateResult)
  : Prop :=
  In (final_class agg) (map prediction results)
  /\ (forall l : string,
        (occurrences l results <= occurrences (final_class agg) results)%nat)
  /\ (forall l : string,
        dict_get (distribution agg) l
        = match occurrences l results with
          | O => None
          | S m => Some (S m)
          end)
  /\ list_sum (values (distribution agg)) = List.length results
  /\ keys (average_probabilities agg) = LABELS
  /\ (forall l : string,
        In l LABELS ->
        exists v : Q,
          dict_get (average_probabilities agg) l = Some v
          /\ v == mean_probability l results).

(** 600 samples, two full windows: zeros, then ones. *)
Definition two_windows : list Q := (repeat 0 300 ++ repeat 1 300)%list.

(** * Properties *)

(** ** The error monad *)

Lemma bind_Return_inv {A B : Type} (m : result A) (k : A -> result B) (b : B) :
  bind m k = Return b -> exists a, m = Return a /\ k a = Return b.
Proof.
  destruct m as [a | e]; simpl; intros H.
  - exists a. split; [reflexivity | exact H].
  - discriminate H.
Qed.

(** Splits [H : (x <- m ;; k) = Return b] into [Hx : m = Return x] and
    [H : k x = Return b]. *)
Ltac bind_inv H x Hx :=
  apply bind_Return_inv in H; destruct H as (x & Hx & H).

Lemma div_nonzero (a b : Q) : ~ b == 0 -> div a b = Return (a / b).
Proof.
  intros Hb. unfold div.
  destruct (Qeq_bool b 0) eqn:E; [| reflexivity].
  apply Qeq_bool_iff in E. contradiction.
Qed.

(** ** The Kalman filter *)

Section Kalman.

Variables Qn Rn : Q.

(** For positive [Q], [R] and [p] the update does not fail, the gain is
    strictly between 0 and 1, and the new covariance is positive again. *)
Lemma kalman_update_gain (x_hat p z : Q) :
  0 < Qn -> 0 < Rn -> 0 < p ->
  exists st, kalman_update Qn Rn x_hat p z = Return st
             /\ 0 < step_K st /\ step_K st < 1 /\ 0 < step_p st.
Proof.
  intros HQ HR Hp. unfold kalman_update.
  assert (Hpm : 0 < p + Qn) by lra.
  assert (Hden : 0 < p + Qn + Rn) by lra.
  rewrite div_nonzero by lra. simpl.
  eexists. split; [reflexivity |]. simpl.
  assert (HK0 : 0 < (p + Qn) / (p + Qn + Rn)).
  { apply Qlt_shift_div_l; lra. }
  assert (HK1 : (p + Qn) / (p + Qn + Rn) < 1).
  { apply Qlt_shift_div_r; lra. }
  repeat split; try assumption.
  apply Qmult_lt_0_compat; lra.
Qed.

Lemma kalman_loop_gain (samples : list Q) :
  0 < Qn -> 0 < Rn ->
  forall x_hat p, 0 < p ->
  exists tr, kalman_loop Qn Rn samples x_hat p = Return tr
             /\ List.length tr = List.length samples
             /\ Forall step_ok tr.
Proof.
  intros HQ HR. induction samples as [| z rest IH]; intros x_hat p Hp.
  - exists []. simpl. auto.
  - destruct (kalman_update_gain x_hat p z HQ HR Hp) as (st & Hst & H0 & H1 & Hp').
    destruct (IH (step_x_hat st) (step_p st) Hp') as (tr & Htr & Hlen & Hall).
    exists (st :: tr). simpl. rewrite Hst. simpl. rewrite Htr. simpl.
    repeat split; [now f_equal | constructor; [split; auto | assumption]].
Qed.

(** The estimate after the first iteration is the initial estimate when the
    first sample equals it. *)
Lemma kalman_update_fixed (x_hat p z : Q) (st : KalmanStep) :
  z == x_hat ->
  kalman_update Qn Rn x_hat p z = Return st ->
  step_x_hat st == x_hat.
Proof.
  intros Hz H. unfold kalman_update in H. bind_inv H K HK.
  injection H as <-. simpl.
  assert (E : z - x_hat == 0) by lra.
  rewrite E. ring.
Qed.

Lemma kalman_loop_constant (c : Q) (samples : list Q) :
  Forall (fun s => s == c) samples ->
  forall x_hat p tr,
  x_hat == c ->
  kalman_loop Qn Rn samples x_hat p = Return tr ->
  Forall (fun y => y == c) (map step_x_hat tr).
Proof.
  induction 1 as [| z rest Hz Hrest IH]; simpl; intros x_hat p tr Hx H.
  - injection H as <-. constructor.
  - bind_inv H st Hst. bind_inv H tr' Htr'. injection H as <-. simpl.
    assert (Hx' : step_x_hat st == c).
    { rewrite (kalman_update_fixed x_hat p z st); [assumption | lra | assumption]. }
    constructor; [assumption |].
    exact (IH (step_x_hat st) (step_p st) tr' Hx' Htr').
Qed.

Lemma kalman_loop_head (z : Q) (rest : list Q) (x_hat p : Q)
  (tr : list KalmanStep) :
  kalman_loop Qn Rn (z :: rest) x_hat p = Return tr ->
  z == x_hat ->
  exists st tr', tr = st :: tr' /\ step_x_hat st == x_hat.
Proof.
  simpl. intros H Hz.
  apply bind_Return_inv in H as (st & Hst & H).
  apply bind_Return_inv in H as (tr' & _ & H).
  injection H as <-. exists st, tr'. split; [reflexivity |].
  exact (kalman_update_fixed x_hat p z st Hz Hst).
Qed.

End Kalman.

Example kalman_update_example :
  kalman_update (1 # 2) (1 # 2) 0 1 4
  = Return {| step_K := (3 # 2) / ((3 # 2) + (1 # 2));
              step_x_hat := 0 + (3 # 2) / ((3 # 2) + (1 # 2)) * (4 - 0);
              step_p := (1 - (3 # 2) / ((3 # 2) + (1 # 2))) * ((3 # 2)) |}.
Proof. vm_compute. reflexivity. Qed.

Lemma hierarchical_kalman_trace_total (signal : list Q) (Q1 R1 Q2 R2 : Q) :
  signal <> [] -> 0 < Q1 -> 0 < R1 -> 0 < Q2 -> 0 < R2 ->
  exists tr1 tr2,
    hierarchical_kalman_trace signal Q1 R1 Q2 R2 = Return (tr1, tr2)
    /\ List.length tr1 = List.length signal
    /\ List.length tr2 = List.length signal
    /\ Forall (step_ok) tr1 /\ Forall (step_ok) tr2.
Proof.
  intros Hne HQ1 HR1 HQ2 HR2.
  destruct signal as [| s0 rest]; [contradiction |].
  assert (Hp : 0 < 1) by lra.
  destruct (kalman_loop_gain Q1 R1 (s0 :: rest) HQ1 HR1 s0 1 Hp)
    as (tr1 & Htr1 & Hlen1 & Hok1).
  destruct tr1 as [| st1 tr1']; [discriminate Hlen1 |].
  destruct (kalman_loop_gain Q2 R2 (map step_x_hat (st1 :: tr1')) HQ2 HR2
              (step_x_hat st1) 1 Hp) as (tr2 & Htr2 & Hlen2 & Hok2).
  exists (st1 :: tr1'), tr2.
  unfold hierarchical_kalman_trace. cbn [getitem nth_error bind].
  rewrite Htr1. cbn [bind]. cbn [map getitem nth_error bind].
  cbn [map] in Htr2. rewrite Htr2. cbn [bind].
  rewrite length_map in Hlen2.
  repeat split; try assumption. congruence.
Qed.



Lemma hierarchical_kalman_filter_constant (c : Q) (signal : list Q)
  (Q1 R1 Q2 R2 : Q) :
  signal <> [] -> Forall (fun s => s == c) signal ->
  0 < Q1 -> 0 < R1 -> 0 < Q2 -> 0 < R2 ->
  exists out,
    hierarchical_kalman_filter signal Q1 R1 Q2 R2 = Return out
    /\ List.length out = List.length signal
    /\ Forall (fun y => y == c) out.
Proof.
  intros Hne Hc HQ1 HR1 HQ2 HR2.
  destruct (hierarchical_kalman_trace_total signal Q1 R1 Q2 R2 Hne HQ1 HR1 HQ2 HR2)
    as (tr1 & tr2 & Htr & Hl1 & Hl2 & _ & _).
  exists (map step_x_hat tr2).
  unfold hierarchical_kalman_filter. rewrite Htr. simpl.
  split; [reflexivity |]. split; [now rewrite length_map |].
  unfold hierarchical_kalman_trace in Htr.
  bind_inv Htr x1 Hx1. bind_inv Htr t1 Ht1.
  bind_inv Htr x2 Hx2. bind_inv Htr t2 Ht2.
  injection Htr as <- <-.
  assert (H1 : Forall (fun y => y == c) (map step_x_hat t1)).
  { apply (kalman_loop_constant Q1 R1 c signal Hc x1 1 t1); [| assumption].
    destruct signal as [| s0 rest]; [contradiction |].
    injection Hx1 as <-. now inversion Hc. }
  apply (kalman_loop_constant Q2 R2 c _ H1 x2 1 t2); [| assumption].
  destruct (map step_x_hat t1) as [| y0 ys]; [discriminate Hx2 |].
  injection Hx2 as <-. now inversion H1.
Qed.

(** C8.  With strictly positive noise parameters: on a constant signal of
    N >= 2 samples, all equal to [c], the filter returns N samples that all
    equal [c]; on a signal of one sample it returns that sample. *)
Theorem constant_signal_is_fixed (Q1 R1 Q2 R2 : Q) :
  0 < Q1 -> 0 < R1 -> 0 < Q2 -> 0 < R2 ->
  (forall (c : Q) (signal : list Q),
      (2 <= List.length signal)%nat ->
      Forall (fun s => s == c) signal ->
      exists out,
        hierarchical_kalman_filter signal Q1 R1 Q2 R2 = Return out
        /\ List.length out = List.length signal
        /\ Forall (fun y => y == c) out)
  /\ (forall x : Q,
        exists y,
          hierarchical_kalman_filter [x] Q1 R1 Q2 R2 = Return [y] /\ y == x).
Proof.
  intros HQ1 HR1 HQ2 HR2. split.
  - intros c signal Hlen Hc.
    apply hierarchical_kalman_filter_constant; try assumption.
    intros ->. simpl in Hlen. lia.
  - intros x.
    destruct (hierarchical_kalman_filter_constant x [x] Q1 R1 Q2 R2)
      as (out & Hout & Hlen & Hall); try assumption.
    + discriminate.
    + constructor; [reflexivity | constructor].
    + destruct out as [| y [| y' out']]; try discriminate Hlen.
      exists y. split; [assumption | now inversion Hall].
Qed.

Lemma constant_signal_is_fixed_witness :
  (exists out,
      hierarchical_kalman_filter [5; 5; 5] (1 # 1000) 10 (1 # 1000) 1 = Return out
      /\ List.length out = 3%nat
      /\ Forall (fun y => y == 5) out)
  /\ (exists y,
        hierarchical_kalman_filter [7] (1 # 1000) 10 (1 # 1000) 1 = Return [y]
        /\ y == 7).
Proof.
  destruct (constant_signal_is_fixed (1 # 1000) 10 (1 # 1000) 1) as [Hconst Hone];
    try reflexivity.
  split.
  - apply (Hconst 5 [5; 5; 5]).
    + simpl. lia.
    + repeat (constructor; try reflexivity).
  - apply (Hone 7).
Defined.

Lemma hierarchical_kalman_filter_first_sample
  (signal : list Q) (Q1 R1 Q2 R2 : Q) (out : list Q) :
  hierarchical_kalman_filter signal Q1 R1 Q2 R2 = Return out ->
  exists s0 o0,
    nth_error signal 0 = Some s0 /\ nth_error out 0 = Some o0 /\ o0 == s0.
Proof.
  intros H. unfold hierarchical_kalman_filter in H.
  apply bind_Return_inv in H as ([tr1 tr2] & Htr & H). injection H as <-.
  unfold hierarchical_kalman_trace in Htr.
  apply bind_Return_inv in Htr as (x1 & Hx1 & Htr).
  apply bind_Return_inv in Htr as (t1 & Ht1 & Htr).
  apply bind_Return_inv in Htr as (x2 & Hx2 & Htr).
  apply bind_Return_inv in Htr as (t2 & Ht2 & Htr).
  injection Htr as <- <-.
  destruct signal as [| s0 rest]; [discriminate Hx1 |].
  injection Hx1 as <-.
  destruct (kalman_loop_head Q1 R1 s0 rest s0 1 t1 Ht1) as (st1 & t1' & -> & E1);
    [reflexivity |].
  simpl in Hx2. injection Hx2 as <-. simpl in Ht2.
  destruct (kalman_loop_head Q2 R2 _ _ _ 1 t2 Ht2) as (st2 & t2' & -> & E2);
    [reflexivity |].
  exists s0, (step_x_hat st2). simpl. repeat split.
  now rewrite E2.
Qed.

(** C10.  Whatever the noise parameters, an output of the filter has as
    its first sample the first sample of the input; and for a non-empty
    signal and strictly positive parameters there is an output. *)
Theorem first_sample_unchanged (signal : list Q) (Q1 R1 Q2 R2 : Q) :
  (forall out : list Q,
      hierarchical_kalman_filter signal Q1 R1 Q2 R2 = Return out ->
      exists s0 o0,
        nth_error signal 0 = Some s0 /\ nth_error out 0 = Some o0 /\ o0 == s0)
  /\ (signal <> [] -> 0 < Q1 -> 0 < R1 -> 0 < Q2 -> 0 < R2 ->
      exists out : list Q,
        hierarchical_kalman_filter signal Q1 R1 Q2 R2 = Return out).
Proof.
  split.
  - intros out. apply hierarchical_kalman_filter_first_sample.
  - intros Hne HQ1 HR1 HQ2 HR2.
    destruct (hierarchical_kalman_trace_total signal Q1 R1 Q2 R2
                Hne HQ1 HR1 HQ2 HR2) as (tr1 & tr2 & Htr & _).
    exists (map step_x_hat tr2).
    unfold hierarchical_kalman_filter. now rewrite Htr.
Qed.

Lemma first_sample_unchanged_witness :
  (exists s0 o0,
      nth_error [4; 9] 0 = Some s0
      /\ nth_error [(324 # 81); (202479021 # 34012224)] 0 = Some o0
      /\ o0 == s0)
  /\ (exists out : list Q,
        hierarchical_kalman_filter [4; 9] 1 1 1 1 = Return out).
Proof.
  destruct (first_sample_unchanged [4; 9] 1 1 1 1) as [Hfirst Htotal].
  split.
  - apply Hfirst. vm_compute. reflexivity.
  - apply Htotal; [discriminate | reflexivity | reflexivity | reflexivity | reflexivity].
Defined.

(** A negative variance can stop the filter: with [Q1 = 0] and [R1 = -1]
    the first division of stage 1 is [1.0 / 0.0], and there is no output at
    all. *)
Lemma first_sample_division_by_zero :
  hierarchical_kalman_filter [0] 0 (-1) 0 1 = Raise ZeroDivisionError.
Proof. reflexivity. Qed.

(** C4, as the code has it.  [hierarchical_kalman_filter] raises
    [IndexError] on an empty signal, at [signal[0]].  [process_ecg_data]
    catches it: its caller gets the pair [(None, None)], neither denoised
    data nor a plot, and no exception. *)
Theorem empty_signal_is_caught
  (render_plot : Z * Z -> list Q -> list Q -> result string) (cfg : Settings) :
  (forall Q1 R1 Q2 R2 : Q,
      hierarchical_kalman_filter [] Q1 R1 Q2 R2 = Raise IndexError)
  /\ process_ecg_data render_plot cfg [] = Return (None, None).
Proof. split; reflexivity. Qed.

(** C4, where it fails.  No exception leaves [process_ecg_data] on the
    empty signal. *)
Lemma empty_signal_error_not_propagated :
  ~ exists e : exn,
      process_ecg_data (fun _ _ _ => Return "png") settings [] = Raise e.
Proof. intros [e H]. discriminate H. Qed.

(** ** Counters *)

Lemma dict_get_counter_incr (c : Counter) (k l : string) :
  dict_get (counter_incr c k) l
  = if String.eqb k l then Some (S (counter_getitem c l)) else dict_get c l.
Proof.
  unfold counter_getitem.
  induction c as [| [k' n] c IH]; simpl.
  - destruct (String.eqb_spec k l); reflexivity.
  - destruct (String.eqb_spec k' k) as [-> | Hk'k]; simpl.
    + destruct (String.eqb_spec k l); reflexivity.
    + destruct (String.eqb_spec k' l) as [-> | Hk'l].
      * destruct (String.eqb_spec k l); [congruence | reflexivity].
      * exact IH.
Qed.

Lemma dict_get_fold_counter_incr (l : string) (xs : list string) :
  forall c : Counter,
  dict_get (fold_left counter_incr xs c) l
  = match dict_get c l, count_occ string_dec xs l with
    | Some n, m => Some (n + m)%nat
    | None, O => None
    | None, S m => Some (S m)
    end.
Proof.
  induction xs as [| x xs IH]; intros c; simpl.
  - destruct (dict_get c l); [f_equal; lia | reflexivity].
  - rewrite IH, dict_get_counter_incr. unfold counter_getitem.
    destruct (string_dec x l) as [-> | Hxl].
    + rewrite String.eqb_refl.
      destruct (dict_get c l); f_equal; lia.
    + apply String.eqb_neq in Hxl. rewrite Hxl. reflexivity.
Qed.

(** The counter holds exactly the labels that occur, each with the number
    of its occurrences. *)
Lemma dict_get_Counter_of (xs : list string) (l : string) :
  dict_get (Counter_of xs) l
  = match count_occ string_dec xs l with
    | O => None
    | S m => Some (S m)
    end.
Proof. unfold Counter_of. now rewrite dict_get_fold_counter_incr. Qed.

Lemma counter_getitem_Counter_of (xs : list string) (l : string) :
  counter_getitem (Counter_of xs) l = count_occ string_dec xs l.
Proof.
  unfold counter_getitem. rewrite dict_get_Counter_of.
  now destruct (count_occ string_dec xs l).
Qed.

Lemma calculate_final_prediction_distribution
  (predictions : list SegmentResult) (agg : AggregateResult) :
  calculate_final_prediction predictions = Return agg ->
  distribution agg = Counter_of (map prediction predictions).
Proof.
  unfold calculate_final_prediction. intros H.
  apply bind_Return_inv in H as (w & _ & H).
  apply bind_Return_inv in H as (r & _ & H).
  apply bind_Return_inv in H as (t & _ & H).
  apply bind_Return_inv in H as (avg & _ & H).
  injection H as <-. reflexivity.
Qed.

(** C3.  On the empty list [max] finds an empty counter and raises
    [ValueError]: the aggregation fails and returns no result. *)
Theorem empty_aggregation_fails :
  calculate_final_prediction [] = Raise ValueError
  /\ forall agg : AggregateResult,
       calculate_final_prediction [] <> Return agg.
Proof. split; [reflexivity | intros agg H; discriminate H]. Qed.

(** C2, as the code has it.  [distribution] is the counter itself: a label
    has an entry exactly when it was predicted at least once, and the entry
    is its number of occurrences; a label never predicted has no entry. *)
Theorem distribution_lists_observed_labels
  (predictions : list SegmentResult) (agg : AggregateResult) :
  calculate_final_prediction predictions = Return agg ->
  forall l : string,
    dict_get (distribution agg) l
    = match occurrences l predictions with
      | O => None
      | S m => Some (S m)
      end.
Proof.
  intros H l. rewrite (calculate_final_prediction_distribution _ _ H).
  apply dict_get_Counter_of.
Qed.

Lemma distribution_lists_observed_labels_witness :
  dict_get (distribution normal_only_aggregate) "Normal Beat (N)" = Some 1%nat
  /\ dict_get (distribution normal_only_aggregate) "Atrial Premature Beat (A)"
     = None.
Proof.
  split.
  - apply (distribution_lists_observed_labels [normal_only] normal_only_aggregate).
    vm_compute. reflexivity.
  - apply (distribution_lists_observed_labels [normal_only] normal_only_aggregate).
    vm_compute. reflexivity.
Defined.

(** C2, where it fails.  One segment, predicted Normal: four of the five
    labels have no entry in [distribution]. *)
Lemma distribution_not_zero_filled :
  exists agg : AggregateResult,
    calculate_final_prediction [normal_only] = Return agg
    /\ In "Atrial Premature Beat (A)" LABELS
    /\ dict_get (distribution agg) "Atrial Premature Beat (A)" = None
    /\ List.length (distribution agg) = 1%nat.
Proof.
  eexists. split; [vm_compute; reflexivity |].
  split; [simpl; auto |]. split; reflexivity.
Qed.

Example Counter_of_example :
  Counter_of ["b"; "a"; "b"; "c"; "a"; "b"]
  = [("b", 3%nat); ("a", 2%nat); ("c", 1%nat)].
Proof. reflexivity. Qed.

Example py_max_first_of_ties :
  py_max (counter_getitem [("a", 2%nat); ("b", 3%nat); ("c", 3%nat)])
         ["a"; "b"; "c"]
  = Return "b".
Proof. reflexivity. Qed.

(** ** The order of a counter's keys and the choice of [max] *)

Lemma keys_counter_incr_in (c : Counter) (k : string) :
  In k (keys c) -> keys (counter_incr c k) = keys c.
Proof.
  induction c as [| [k' n] c IH]; simpl; intros Hin; [contradiction |].
  destruct (String.eqb_spec k' k) as [-> | Hne]; simpl; [reflexivity |].
  f_equal. apply IH. destruct Hin as [-> | Hin]; [contradiction | exact Hin].
Qed.

Lemma keys_counter_incr_notin (c : Counter) (k : string) :
  ~ In k (keys c) -> keys (counter_incr c k) = (keys c ++ [k])%list.
Proof.
  induction c as [| [k' n] c IH]; simpl; intros Hnin; [reflexivity |].
  destruct (String.eqb_spec k' k) as [-> | Hne]; simpl.
  - exfalso. apply Hnin. now left.
  - f_equal. apply IH. intros Hin. apply Hnin. now right.
Qed.

Lemma Counter_of_snoc (xs : list string) (x : string) :
  Counter_of (xs ++ [x]) = counter_incr (Counter_of xs) x.
Proof. unfold Counter_of. now rewrite fold_left_app. Qed.

Lemma in_keys_dict_get {V : Type} (d : dict V) (k : string) :
  In k (keys d) <-> dict_get d k <> None.
Proof.
  induction d as [| [k' v] d IH]; simpl.
  - split; [contradiction | congruence].
  - destruct (String.eqb_spec k' k) as [-> | Hne].
    + split; [discriminate | now left].
    + rewrite <- IH. split; [intros [E | H]; [contradiction | exact H] | now right].
Qed.

Lemma in_keys_Counter_of (xs : list string) (l : string) :
  In l (keys (Counter_of xs)) <-> In l xs.
Proof.
  rewrite in_keys_dict_get, dict_get_Counter_of.
  rewrite (count_occ_In string_dec).
  destruct (count_occ string_dec xs l); split; intros H;
    try discriminate; try lia; congruence.
Qed.

Lemma first_index_lt (l : string) (xs : list string) :
  In l xs -> (first_index l xs < List.length xs)%nat.
Proof.
  induction xs as [| x xs IH]; simpl; [contradiction |].
  destruct (String.eqb_spec x l) as [-> | Hne]; [lia |].
  intros [E | Hin]; [contradiction | specialize (IH Hin); lia].
Qed.

Lemma first_index_app_in (l : string) (xs ys : list string) :
  In l xs -> first_index l (xs ++ ys) = first_index l xs.
Proof.
  induction xs as [| x xs IH]; simpl; [contradiction |].
  destruct (String.eqb_spec x l) as [-> | Hne]; [reflexivity |].
  intros [E | Hin]; [contradiction | now rewrite IH].
Qed.

Lemma first_index_snoc_new (l : string) (xs : list string) :
  ~ In l xs -> first_index l (xs ++ [l]) = List.length xs.
Proof.
  induction xs as [| x xs IH]; simpl; intros Hnin.
  - now rewrite String.eqb_refl.
  - destruct (String.eqb_spec x l) as [-> | Hne].
    + exfalso. apply Hnin. now left.
    + f_equal. apply IH. intros Hin. apply Hnin. now right.
Qed.

Lemma StronglySorted_in_ext {A : Type} (R R' : A -> A -> Prop) (l : list A) :
  (forall a b, In a l -> In b l -> R a b -> R' a b) ->
  StronglySorted R l -> StronglySorted R' l.
Proof.
  intros Hext Hs. induction Hs as [| a l Hs IH Hall]; constructor.
  - apply IH. intros x y Hx Hy. apply Hext; now right.
  - rewrite Forall_forall in *. intros b Hb.
    apply Hext; [now left | now right | now apply Hall].
Qed.

Lemma StronglySorted_snoc {A : Type} (R : A -> A -> Prop) (l : list A) (x : A) :
  StronglySorted R l -> (forall a, In a l -> R a x) ->
  StronglySorted R (l ++ [x]).
Proof.
  intros Hs Hx. induction Hs as [| a l Hs IH Hall]; simpl.
  - constructor; constructor.
  - constructor.
    + apply IH. intros b Hb. apply Hx. now right.
    + apply Forall_app. split; [exact Hall |].
      constructor; [apply Hx; now left | constructor].
Qed.

Lemma StronglySorted_split {A : Type} (R : A -> A -> Prop)
  (pre post : list A) (a : A) :
  StronglySorted R (pre ++ a :: post) -> Forall (R a) post.
Proof.
  induction pre as [| b pre IH]; simpl; intros Hs.
  - now apply StronglySorted_inv in Hs.
  - apply IH. now apply StronglySorted_inv in Hs.
Qed.

Lemma keys_Counter_of_sorted (xs : list string) :
  StronglySorted (earlier_in xs) (keys (Counter_of xs)).
Proof.
  induction xs as [| x xs IH] using rev_ind.
  - constructor.
  - rewrite Counter_of_snoc.
    assert (Hold : StronglySorted (earlier_in (xs ++ [x])) (keys (Counter_of xs))).
    { apply (StronglySorted_in_ext (earlier_in xs)); [| exact IH].
      intros a b Ha Hb. unfold earlier_in.
      apply (proj1 (in_keys_Counter_of xs a)) in Ha.
      apply (proj1 (in_keys_Counter_of xs b)) in Hb.
      rewrite (first_index_app_in a xs [x] Ha), (first_index_app_in b xs [x] Hb).
      auto. }
    destruct (in_dec string_dec x (keys (Counter_of xs))) as [Hin | Hnin].
    + now rewrite keys_counter_incr_in.
    + rewrite keys_counter_incr_notin by assumption.
      apply StronglySorted_snoc; [exact Hold |].
      intros a Ha. unfold earlier_in.
      apply (proj1 (in_keys_Counter_of xs a)) in Ha.
      assert (Hx : ~ In x xs).
      { intros Hx. apply Hnin. now apply in_keys_Counter_of. }
      rewrite (first_index_app_in a xs [x] Ha), (first_index_snoc_new x xs Hx).
      now apply first_index_lt.
Qed.

(** [max_from] returns the first element of maximal key: every element
    before it has a smaller key, no element after it has a larger one. *)
Lemma max_from_split {A : Type} (key : A -> nat) (rest : list A) :
  forall (best : A) (p1 p2 : list A),
  Forall (fun x => (key x < key best)%nat) p1 ->
  Forall (fun x => (key x <= key best)%nat) p2 ->
  exists pre post,
    (p1 ++ best :: p2 ++ rest = pre ++ max_from key best rest :: post)%list
    /\ Forall (fun x => (key x < key (max_from key best rest))%nat) pre
    /\ Forall (fun x => (key x <= key (max_from key best rest))%nat) post.
Proof.
  induction rest as [| x rest IH]; intros best p1 p2 H1 H2; simpl.
  - exists p1, p2. rewrite app_nil_r. auto.
  - destruct (Nat.ltb_spec (key best) (key x)) as [Hlt | Hge].
    + destruct (IH x (p1 ++ best :: p2)%list []) as (pre & post & E & Hpre & Hpost).
      * apply Forall_app. split.
        -- eapply Forall_impl; [| exact H1]. simpl. intros; lia.
        -- constructor; [exact Hlt |].
           eapply Forall_impl; [| exact H2]. simpl. intros; lia.
      * constructor.
      * exists pre, post. split; [| auto].
        rewrite <- E. simpl. rewrite <- app_assoc. reflexivity.
    + destruct (IH best p1 (p2 ++ [x])%list) as (pre & post & E & Hpre & Hpost).
      * exact H1.
      * apply Forall_app. split; [exact H2 | constructor; [exact Hge | constructor]].
      * exists pre, post. split; [| auto].
        rewrite <- E. rewrite <- app_assoc. reflexivity.
Qed.

Lemma py_max_split {A : Type} (key : A -> nat) (xs : list A) (m : A) :
  py_max key xs = Return m ->
  exists pre post,
    xs = (pre ++ m :: post)%list
    /\ Forall (fun x => (key x < key m)%nat) pre
    /\ Forall (fun x => (key x <= key m)%nat) post.
Proof.
  destruct xs as [| x rest]; simpl; [discriminate |].
  intros H. injection H as <-.
  exact (max_from_split key rest x [] [] (Forall_nil _) (Forall_nil _)).
Qed.

Lemma calculate_final_prediction_class
  (predictions : list SegmentResult) (agg : AggregateResult) :
  calculate_final_prediction predictions = Return agg ->
  let class_counts := Counter_of (map prediction predictions) in
  py_max (counter_getitem class_counts) (keys class_counts)
  = Return (final_class agg).
Proof.
  unfold calculate_final_prediction. intros H.
  apply bind_Return_inv in H as (w & Hw & H).
  apply bind_Return_inv in H as (r & _ & H).
  apply bind_Return_inv in H as (t & _ & H).
  apply bind_Return_inv in H as (avg & _ & H).
  injection H as <-. exact Hw.
Qed.

(** C5.  The final label occurs among the predictions, no label occurs
    more often, and any other label that occurs as often has its first
    occurrence later in the input. *)
Theorem final_label_is_first_most_frequent
  (predictions : list SegmentResult) (agg : AggregateResult) :
  calculate_final_prediction predictions = Return agg ->
  let labels := map prediction predictions in
  let w := final_class agg in
  In w labels
  /\ (forall l : string,
        (occurrences l predictions <= occurrences w predictions)%nat)
  /\ (forall l : string,
        l <> w ->
        occurrences l predictions = occurrences w predictions ->
        (first_index w labels < first_index l labels)%nat).
Proof.
  intros H labels w.
  pose proof (calculate_final_prediction_class predictions agg H) as Hmax.
  cbv zeta in Hmax. fold labels in Hmax. fold w in Hmax.
  apply py_max_split in Hmax as (pre & post & Hkeys & Hpre & Hpost).
  rewrite Forall_forall in Hpre, Hpost.
  assert (Hcount : forall l, counter_getitem (Counter_of labels) l
                             = occurrences l predictions).
  { intros l. apply counter_getitem_Counter_of. }
  assert (Hw : In w labels).
  { apply in_keys_Counter_of. rewrite Hkeys. apply in_elt. }
  assert (Hplace : forall l, In l labels ->
            In l pre \/ l = w \/ In l post).
  { intros l Hl. apply in_keys_Counter_of in Hl. rewrite Hkeys in Hl.
    apply in_app_or in Hl. destruct Hl as [Hl | [Hl | Hl]]; auto. }
  split; [exact Hw |]. split.
  - intros l.
    destruct (in_dec string_dec l labels) as [Hl | Hl].
    + destruct (Hplace l Hl) as [Hin | [-> | Hin]].
      * apply Hpre in Hin. rewrite !Hcount in Hin. lia.
      * lia.
      * apply Hpost in Hin. rewrite !Hcount in Hin. exact Hin.
    + unfold occurrences. fold labels.
      apply (count_occ_not_In string_dec) in Hl. rewrite Hl. lia.
  - intros l Hne Heq.
    assert (Hl : In l labels).
    { apply (count_occ_In string_dec).
      apply (count_occ_In string_dec) in Hw.
      unfold occurrences in Heq. fold labels in Heq. lia. }
    destruct (Hplace l Hl) as [Hin | [-> | Hin]].
    + apply Hpre in Hin. rewrite !Hcount in Hin. lia.
    + contradiction.
    + pose proof (keys_Counter_of_sorted labels) as Hs.
      rewrite Hkeys in Hs. apply StronglySorted_split in Hs.
      rewrite Forall_forall in Hs. exact (Hs l Hin).
Qed.

Lemma final_label_is_first_most_frequent_witness :
  let labels := map prediction tie_predictions in
  let w := final_class tie_aggregate in
  In w labels
  /\ (forall l : string,
        (occurrences l tie_predictions <= occurrences w tie_predictions)%nat)
  /\ (forall l : string,
        l <> w ->
        occurrences l tie_predictions = occurrences w tie_predictions ->
        (first_index w labels < first_index l labels)%nat).
Proof.
  apply (final_label_is_first_most_frequent tie_predictions tie_aggregate).
  vm_compute. reflexivity.
Defined.

(** ** Sums of probabilities *)

Lemma Qsum_map_ext {A : Type} (f g : A -> Q) (xs : list A) :
  (forall x, In x xs -> f x == g x) ->
  Qsum (map f xs) == Qsum (map g xs).
Proof.
  induction xs as [| x xs IH]; simpl; intros H; [reflexivity |].
  rewrite (H x) by now left. rewrite IH; [reflexivity |].
  intros y Hy. apply H. now right.
Qed.

Lemma Qsum_map_plus {A : Type} (f g : A -> Q) (xs : list A) :
  Qsum (map (fun x => f x + g x) xs) == Qsum (map f xs) + Qsum (map g xs).
Proof.
  induction xs as [| x xs IH]; simpl; [reflexivity |]. rewrite IH. ring.
Qed.

Lemma Qsum_map_zero {A : Type} (xs : list A) :
  Qsum (map (fun _ => 0) xs) == 0.
Proof. induction xs as [| x xs IH]; simpl; [reflexivity |]. rewrite IH. ring. Qed.

Lemma Qsum_swap {A B : Type} (f : A -> B -> Q) (la : list A) (lb : list B) :
  Qsum (map (fun a => Qsum (map (fun b => f a b) lb)) la)
  == Qsum (map (fun b => Qsum (map (fun a => f a b) la)) lb).
Proof.
  induction la as [| a la IH]; simpl.
  - now rewrite Qsum_map_zero.
  - rewrite IH, <- Qsum_map_plus. reflexivity.
Qed.

Lemma Qsum_map_div (n : Q) (xs : list Q) :
  Qsum (map (fun v => v / n) xs) == Qsum xs / n.
Proof.
  induction xs as [| x xs IH]; simpl.
  - unfold Qdiv. ring.
  - rewrite IH. unfold Qdiv. ring.
Qed.

Lemma Qsum_indicator (k : string) (v : Q) (L : list string) :
  NoDup L -> In k L ->
  Qsum (map (fun l => if String.eqb k l then v else 0) L) == v.
Proof.
  induction 1 as [| x L Hx Hnd IH]; simpl; [contradiction |].
  intros [-> | Hin].
  - rewrite String.eqb_refl.
    rewrite (Qsum_map_ext _ (fun _ => 0)).
    + rewrite Qsum_map_zero. ring.
    + intros y Hy. destruct (String.eqb_spec k y) as [-> | _]; [contradiction | reflexivity].
  - destruct (String.eqb_spec k x) as [-> | _]; [contradiction |].
    rewrite IH by assumption. ring.
Qed.

Lemma Qsum_bounds (lo hi : Q) (xs : list Q) :
  (forall x, In x xs -> lo <= x /\ x <= hi) ->
  inject_Z (Z.of_nat (List.length xs)) * lo <= Qsum xs
  /\ Qsum xs <= inject_Z (Z.of_nat (List.length xs)) * hi.
Proof.
  induction xs as [| x xs IH]; intros H.
  - cbn [List.length Qsum fold_right Z.of_nat]. change (inject_Z 0) with 0. lra.
  - destruct (H x (or_introl eq_refl)) as [Hlo Hhi].
    destruct IH as [IHlo IHhi]; [intros y Hy; apply H; now right |].
    cbn [List.length Qsum fold_right]. fold (Qsum xs).
    rewrite Nat2Z.inj_succ. unfold Z.succ. rewrite inject_Z_plus.
    change (inject_Z 1) with 1. lra.
Qed.

Lemma contribution_absent (l : string) (d : dict Q) :
  ~ In l (keys d) -> contribution l d = 0.
Proof.
  induction d as [| [k v] d IH]; simpl; intros Hnin; [reflexivity |].
  destruct (String.eqb_spec k l) as [-> | _].
  - exfalso. apply Hnin. now left.
  - apply IH. intros Hin. apply Hnin. now right.
Qed.

Lemma prob_of_absent (l : string) (d : dict Q) :
  ~ In l (keys d) -> prob_of l d = 0.
Proof.
  intros Hnin. unfold prob_of.
  destruct (dict_get d l) eqn:E; [| reflexivity].
  exfalso. apply Hnin. apply in_keys_dict_get. congruence.
Qed.

(** In a dict, with its distinct keys, the loop adds to [l] exactly the
    entry of [l]. *)
Lemma contribution_prob_of (l : string) (d : dict Q) :
  dict_wf d -> contribution l d == prob_of l d.
Proof.
  unfold dict_wf. induction d as [| [k v] d IH]; simpl; intros Hnd.
  - reflexivity.
  - apply NoDup_cons_iff in Hnd as [Hk Hnd]. unfold prob_of. simpl.
    destruct (String.eqb_spec k l) as [-> | _].
    + rewrite contribution_absent by assumption. ring.
    + exact (IH Hnd).
Qed.

Lemma values_sum_over_labels (L : list string) (d : dict Q) :
  NoDup L -> dict_wf d -> incl (keys d) L ->
  Qsum (map (fun l => prob_of l d) L) == Qsum (values d).
Proof.
  intros HL. unfold dict_wf. induction d as [| [k v] d IH]; simpl; intros Hnd Hincl.
  - apply Qsum_map_zero.
  - apply NoDup_cons_iff in Hnd as [Hk Hnd].
    rewrite (Qsum_map_ext _
               (fun l => (if String.eqb k l then v else 0) + prob_of l d)).
    + rewrite Qsum_map_plus, Qsum_indicator, IH; try assumption.
      * reflexivity.
      * intros x Hx. apply Hincl. now right.
      * apply Hincl. now left.
    + intros l _. unfold prob_of at 1. simpl.
      destruct (String.eqb_spec k l) as [<- | _].
      * rewrite prob_of_absent by assumption. ring.
      * fold (prob_of l d). ring.
Qed.

(** ** The accumulation loops of [calculate_final_prediction] *)

Lemma dict_iadd_spec (d : dict Q) (k : string) (v : Q) :
  In k (keys d) ->
  exists d',
    dict_iadd d k v = Return d'
    /\ keys d' = keys d
    /\ forall l, prob_of l d' == prob_of l d + (if String.eqb k l then v else 0).
Proof.
  induction d as [| [k' x] d IH]; simpl; intros Hin; [contradiction |].
  destruct (String.eqb_spec k' k) as [-> | Hne].
  - eexists. split; [reflexivity |]. split; [reflexivity |].
    intros l. unfold prob_of. simpl.
    destruct (String.eqb_spec k l); ring.
  - destruct Hin as [E | Hin]; [contradiction |].
    destruct (IH Hin) as (d' & Hd' & Hkeys & Hget).
    rewrite Hd'. simpl. eexists. split; [reflexivity |].
    split; [simpl; now f_equal |].
    intros l. unfold prob_of. simpl.
    destruct (String.eqb_spec k' l) as [<- | _].
    + destruct (String.eqb_spec k k') as [E | _]; [congruence | ring].
    + apply Hget.
Qed.

Lemma add_vector_spec (probs : dict Q) :
  forall total : dict Q,
  incl (keys probs) (keys total) ->
  exists total',
    for_each probs (fun total '(cls, prob) => dict_iadd total cls prob) total
    = Return total'
    /\ keys total' = keys total
    /\ forall l, prob_of l total' == prob_of l total + contribution l probs.
Proof.
  induction probs as [| [k v] probs IH]; simpl; intros total Hincl.
  - exists total. split; [reflexivity |]. split; [reflexivity |].
    intros l. ring.
  - destruct (dict_iadd_spec total k v) as (d1 & Hd1 & Hk1 & Hg1).
    { apply Hincl. now left. }
    rewrite Hd1. simpl.
    destruct (IH d1) as (d2 & Hd2 & Hk2 & Hg2).
    { rewrite Hk1. intros x Hx. apply Hincl. now right. }
    exists d2. split; [exact Hd2 |]. split; [congruence |].
    intros l. rewrite Hg2, Hg1.
    destruct (String.eqb k l); ring.
Qed.

Lemma add_vectors_spec (predictions : list SegmentResult) :
  forall total : dict Q,
  Forall (fun r => incl (keys (probabilities r)) (keys total)) predictions ->
  exists total',
    for_each predictions
      (fun total prediction =>
         for_each (probabilities prediction)
           (fun total '(cls, prob) => dict_iadd total cls prob) total)
      total = Return total'
    /\ keys total' = keys total
    /\ forall l,
         prob_of l total'
         == prob_of l total
            + Qsum (map (fun r => contribution l (probabilities r)) predictions).
Proof.
  induction predictions as [| r predictions IH]; simpl; intros total Hall.
  - exists total. split; [reflexivity |]. split; [reflexivity |].
    intros l. ring.
  - apply Forall_cons_iff in Hall as [Hr Hall].
    destruct (add_vector_spec (probabilities r) total Hr) as (d1 & Hd1 & Hk1 & Hg1).
    rewrite Hd1. simpl.
    destruct (IH d1) as (d2 & Hd2 & Hk2 & Hg2).
    { rewrite Hk1. exact Hall. }
    exists d2. split; [exact Hd2 |]. split; [congruence |].
    intros l. rewrite Hg2, Hg1. ring.
Qed.

Lemma average_spec (n : Q) (total : dict Q) :
  ~ n == 0 ->
  map_m (fun '(cls, prob) => avg <- div prob n ;; Return (cls, avg)) total
  = Return (map (fun '(cls, prob) => (cls, prob / n)) total).
Proof.
  intros Hn. induction total as [| [k v] total IH]; simpl; [reflexivity |].
  rewrite div_nonzero by assumption. simpl. rewrite IH. reflexivity.
Qed.

Lemma keys_map_values {V W : Type} (f : V -> W) (d : dict V) :
  keys (map (fun '(k, v) => (k, f v)) d) = keys d.
Proof.
  induction d as [| [k v] d IH]; simpl; [reflexivity | now f_equal].
Qed.

Lemma values_map_values {V W : Type} (f : V -> W) (d : dict V) :
  values (map (fun '(k, v) => (k, f v)) d) = map f (values d).
Proof.
  induction d as [| [k v] d IH]; simpl; [reflexivity | now f_equal].
Qed.

Lemma dict_get_map_values {V W : Type} (f : V -> W) (d : dict V) (l : string) :
  dict_get (map (fun '(k, v) => (k, f v)) d) l = option_map f (dict_get d l).
Proof.
  induction d as [| [k v] d IH]; simpl; [reflexivity |].
  destruct (String.eqb k l); [reflexivity | exact IH].
Qed.

Lemma values_sum_over_keys (d : dict Q) :
  dict_wf d ->
  Qsum (values d) == Qsum (map (fun l => prob_of l d) (keys d)).
Proof.
  intros Hwf. symmetry.
  apply values_sum_over_labels; [exact Hwf | exact Hwf | apply incl_refl].
Qed.

Lemma prob_of_zero_dict (l : string) (L : list string) :
  prob_of l (map (fun cls => (cls, 0)) L) = 0.
Proof.
  unfold prob_of. induction L as [| x L IH]; simpl; [reflexivity |].
  destruct (String.eqb x l); [reflexivity | exact IH].
Qed.

Lemma keys_zero_dict (L : list string) :
  keys (map (fun cls => (cls, 0)) L) = L.
Proof. induction L as [| x L IH]; simpl; [reflexivity | now f_equal]. Qed.

Lemma NoDup_LABELS : NoDup LABELS.
Proof.
  unfold LABELS. simpl.
  repeat (constructor; [simpl; intuition discriminate |]). constructor.
Qed.

Lemma py_max_total {A : Type} (key : A -> nat) (xs : list A) :
  xs <> [] -> exists m, py_max key xs = Return m.
Proof. destruct xs as [| x rest]; [contradiction | simpl; eauto]. Qed.

Lemma length_positive {A : Type} (xs : list A) :
  xs <> [] -> 0 < inject_Z (Z.of_nat (List.length xs)).
Proof.
  destruct xs as [| x xs]; [contradiction |]. intros _.
  change 0 with (inject_Z 0). rewrite <- Zlt_Qlt. simpl. lia.
Qed.

Lemma calculate_final_prediction_spec (predictions : list SegmentResult) :
  predictions <> [] ->
  Forall probs_ok predictions ->
  exists agg : AggregateResult,
    calculate_final_prediction predictions = Return agg
    /\ keys (average_probabilities agg) = LABELS
    /\ (forall l : string,
          In l LABELS ->
          exists v : Q,
            dict_get (average_probabilities agg) l = Some v
            /\ v == mean_probability l predictions)
    /\ ((forall r, In r predictions ->
           1 - eps <= Qsum (values (probabilities r))
           /\ Qsum (values (probabilities r)) <= 1 + eps) ->
        1 - eps <= Qsum (values (average_probabilities agg))
        /\ Qsum (values (average_probabilities agg)) <= 1 + eps).
Proof.
  intros Hne Hok.
  set (labels := map prediction predictions).
  set (n := inject_Z (Z.of_nat (List.length predictions))).
  assert (Hn : 0 < n) by (apply length_positive; exact Hne).
  assert (Hn0 : ~ n == 0) by lra.
  destruct (py_max_total (counter_getitem (Counter_of labels))
              (keys (Counter_of labels))) as (w & Hw).
  { destruct predictions as [| r rest]; [contradiction |].
    intros E.
    assert (Hin : In (prediction r) (keys (Counter_of labels))).
    { apply in_keys_Counter_of. now left. }
    rewrite E in Hin. exact Hin. }
  destruct (add_vectors_spec predictions (map (fun cls => (cls, 0)) LABELS))
    as (total & Htotal & Hkeys & Hget).
  { rewrite Forall_forall in *. intros r Hr.
    destruct (Hok r Hr) as [_ Hincl].
    rewrite keys_zero_dict. exact Hincl. }
  assert (Hkeys' : keys total = LABELS).
  { rewrite Hkeys. apply keys_zero_dict. }
  assert (Htot : forall l,
            prob_of l total
            == Qsum (map (fun r => prob_of l (probabilities r)) predictions)).
  { intros l. rewrite Hget, prob_of_zero_dict.
    rewrite (Qsum_map_ext _ (fun r => prob_of l (probabilities r))).
    - ring.
    - intros r Hr. apply contribution_prob_of.
      rewrite Forall_forall in Hok. now destruct (Hok r Hr). }
  eexists. split.
  { unfold calculate_final_prediction. fold labels. rewrite Hw. cbn [bind].
    fold n. rewrite (div_nonzero _ n Hn0). cbn [bind].
    rewrite Htotal. cbn [bind].
    rewrite (average_spec n total Hn0). cbn [bind]. reflexivity. }
  cbn [average_probabilities].
  split; [now rewrite keys_map_values |]. split.
  - intros l Hl. rewrite dict_get_map_values.
    assert (Hin : In l (keys total)) by now rewrite Hkeys'.
    apply in_keys_dict_get in Hin.
    destruct (dict_get total l) as [x |] eqn:E; [| congruence].
    exists (x / n). split; [reflexivity |].
    unfold mean_probability. fold n. rewrite <- Htot.
    unfold prob_of. rewrite E. reflexivity.
  - intros Hsum.
    rewrite values_map_values.
    assert (Hs : Qsum (map (fun v => v / n) (values total))
                 == Qsum (map (fun r => Qsum (values (probabilities r)))
                              predictions) / n).
    { rewrite Qsum_map_div. apply Qdiv_comp; [| reflexivity].
      rewrite values_sum_over_keys
        by (unfold dict_wf; rewrite Hkeys'; exact NoDup_LABELS).
      rewrite Hkeys'.
      rewrite (Qsum_map_ext _ _ LABELS (fun l _ => Htot l)).
      rewrite Qsum_swap.
      apply Qsum_map_ext. intros r Hr.
      rewrite Forall_forall in Hok. destruct (Hok r Hr) as [Hwf Hincl].
      apply values_sum_over_labels; [exact NoDup_LABELS | exact Hwf | exact Hincl]. }
    rewrite Hs.
    destruct (Qsum_bounds (1 - eps) (1 + eps)
                (map (fun r => Qsum (values (probabilities r))) predictions))
      as [Hlo Hhi].
    { intros x Hx. apply in_map_iff in Hx as (r & <- & Hr). exact (Hsum r Hr). }
    rewrite length_map in Hlo, Hhi. fold n in Hlo, Hhi.
    split.
    + apply Qle_shift_div_l; [exact Hn |]. lra.
    + apply Qle_shift_div_r; [exact Hn |]. lra.
Qed.

(** C9.  For a non-empty list of segment results whose probability vectors
    are over the five labels, the aggregation returns; [average_probabilities]
    has exactly the five labels as keys, each mapped to the mean over the
    segments of the probability of that label (0 where a vector lacks the
    label); and if every vector sums to 1 within [eps], so does
    [average_probabilities]. *)
Theorem average_probabilities_are_means (predictions : list SegmentResult) :
  predictions <> [] ->
  Forall probs_ok predictions ->
  exists agg : AggregateResult,
    calculate_final_prediction predictions = Return agg
    /\ keys (average_probabilities agg) = LABELS
    /\ (forall l : string,
          In l LABELS ->
          exists v : Q,
            dict_get (average_probabilities agg) l = Some v
            /\ v == mean_probability l predictions)
    /\ ((forall r, In r predictions ->
           1 - eps <= Qsum (values (probabilities r))
           /\ Qsum (values (probabilities r)) <= 1 + eps) ->
        1 - eps <= Qsum (values (average_probabilities agg))
        /\ Qsum (values (average_probabilities agg)) <= 1 + eps).
Proof. exact (calculate_final_prediction_spec predictions). Qed.

Lemma average_probabilities_are_means_witness :
  exists agg : AggregateResult,
    calculate_final_prediction two_vectors = Return agg
    /\ keys (average_probabilities agg) = LABELS
    /\ (forall l : string,
          In l LABELS ->
          exists v : Q,
            dict_get (average_probabilities agg) l = Some v
            /\ v == mean_probability l two_vectors)
    /\ ((forall r, In r two_vectors ->
           1 - eps <= Qsum (values (probabilities r))
           /\ Qsum (values (probabilities r)) <= 1 + eps) ->
        1 - eps <= Qsum (values (average_probabilities agg))
        /\ Qsum (values (average_probabilities agg)) <= 1 + eps).
Proof.
  apply (average_probabilities_are_means two_vectors).
  - discriminate.
  - constructor; [split; [exact NoDup_LABELS | apply incl_refl] |].
    constructor; [split; [exact NoDup_LABELS | apply incl_refl] |].
    constructor.
Defined.

(** ** The segment loop *)

Lemma slice_length {A : Type} (l : list A) (i j : nat) :
  (j <= List.length l)%nat -> List.length (slice l i j) = (j - i)%nat.
Proof. intros H. unfold slice. rewrite length_firstn, length_skipn. lia. Qed.

Lemma range_segments (N : nat) :
  range 0 (Z.of_nat N - 300) 300
  = map (fun k => (Z.of_nat k * 300)%Z) (seq 0 (segment_count N)).
Proof.
  unfold range, segment_count.
  replace (Z.of_nat N - 300 - 0 + 300 - 1)%Z with (Z.of_nat N - 1)%Z by lia.
  apply map_ext. intros k. lia.
Qed.

Lemma segment_count_bound (N k : nat) :
  (k < segment_count N)%nat -> (k * 300 + 300 < N)%nat.
Proof.
  unfold segment_count. intros Hk.
  assert (Hq : (Z.of_nat k + 1 <= (Z.of_nat N - 1) / 300)%Z) by lia.
  pose proof (Z.mul_div_le (Z.of_nat N - 1) 300 eq_refl) as Hle.
  lia.
Qed.

(** Where the loop agrees with the number of full windows, and where it
    falls one short. *)
Lemma segment_count_not_multiple (N : nat) :
  (N mod 300 <> 0)%nat -> segment_count N = (N / 300)%nat.
Proof.
  intros Hmod. unfold segment_count.
  pose proof (Nat.div_mod_eq N 300) as HN.
  pose proof (Nat.mod_upper_bound N 300) as Hub.
  assert (E : ((Z.of_nat N - 1) / 300 = Z.of_nat (N / 300))%Z).
  { symmetry. apply (Z.div_unique _ _ _ (Z.of_nat (N mod 300) - 1)); lia. }
  rewrite E. lia.
Qed.

Lemma segment_count_multiple (N : nat) :
  (0 < N)%nat -> (N mod 300 = 0)%nat -> segment_count N = (N / 300 - 1)%nat.
Proof.
  intros Hpos Hmod. unfold segment_count.
  pose proof (Nat.div_mod_eq N 300) as HN.
  assert (E : ((Z.of_nat N - 1) / 300 = Z.of_nat (N / 300) - 1)%Z).
  { symmetry. apply (Z.div_unique _ _ _ 299); lia. }
  rewrite E. lia.
Qed.

Section SegmentLoop.

Variable load_ecg_model : result (option Model).
Variable denoised_data : list Q.

Lemma segment_body_unfold (results : list SegmentResult) (k : nat) :
  (k * 300 + 300 <= List.length denoised_data)%nat ->
  segment_body load_ecg_model denoised_data results (Z.of_nat k * 300)
  = ('(pred_class, probs) <- predict_segment load_ecg_model (window denoised_data k) ;;
     name <- class_name pred_class ;;
     probs_dict <-
       map_m (fun '(i, prob) => cls <- class_name i ;; Return (cls, prob))
             (enumerate probs) ;;
     Return (results ++ [ {| segment := Z.of_nat k + 1;
                             prediction := name;
                             probabilities := probs_dict |} ])%list).
Proof.
  intros Hk. unfold segment_body, window.
  replace (Z.to_nat (Z.of_nat k * 300)) with (k * 300)%nat by lia.
  replace (Z.to_nat (Z.of_nat k * 300 + 300)) with (k * 300 + 300)%nat by lia.
  rewrite slice_length by assumption.
  replace (k * 300 + 300 - k * 300)%nat with 300%nat by lia.
  rewrite Nat.eqb_refl.
  rewrite Z.div_mul by discriminate. reflexivity.
Qed.

(** Every iteration that does not raise appends exactly one entry. *)
Lemma segment_body_appends (results res : list SegmentResult) (k : nat) :
  (k * 300 + 300 <= List.length denoised_data)%nat ->
  segment_body load_ecg_model denoised_data results (Z.of_nat k * 300)
  = Return res ->
  exists r, res = (results ++ [r])%list /\ segment r = (Z.of_nat k + 1)%Z.
Proof.
  intros Hk H. rewrite segment_body_unfold in H by assumption.
  apply bind_Return_inv in H as ([c ps] & _ & H).
  apply bind_Return_inv in H as (name & _ & H).
  apply bind_Return_inv in H as (d & _ & H).
  injection H as <-. eexists. split; reflexivity.
Qed.

Lemma segment_loop_appends (ks : list nat) :
  (forall k, In k ks -> (k * 300 + 300 <= List.length denoised_data)%nat) ->
  forall acc res : list SegmentResult,
  for_each (map (fun k => (Z.of_nat k * 300)%Z) ks)
           (segment_body load_ecg_model denoised_data) acc = Return res ->
  exists rs,
    res = (acc ++ rs)%list
    /\ map segment rs = map (fun k => (Z.of_nat k + 1)%Z) ks.
Proof.
  induction ks as [| k ks IH]; simpl; intros Hks acc res H.
  - injection H as <-. exists []. now rewrite app_nil_r.
  - apply bind_Return_inv in H as (acc' & Hbody & H).
    apply segment_body_appends in Hbody as (r & -> & Hr); [| apply Hks; now left].
    apply IH in H as (rs & -> & Hrs); [| intros k' Hk'; apply Hks; now right].
    exists (r :: rs). split; [now rewrite <- app_assoc |].
    simpl. now rewrite Hr, Hrs.
Qed.

(** The loop yields one entry per iteration of the range, numbered from 1:
    [(N - 1) / 300] entries for N samples, rounded down. *)
Lemma segment_results_numbering (results : list SegmentResult) :
  segment_results load_ecg_model denoised_data = Return results ->
  map segment results
  = map (fun k => (Z.of_nat k + 1)%Z)
        (seq 0 (segment_count (List.length denoised_data))).
Proof.
  unfold segment_results. rewrite range_segments. intros H.
  apply segment_loop_appends in H as (rs & -> & Hrs); [exact Hrs |].
  intros k Hk. apply in_seq in Hk.
  pose proof (segment_count_bound (List.length denoised_data) k). lia.
Qed.

End SegmentLoop.

(** The range of the loop on some lengths. *)
Example range_650 : range 0 (650 - 300) 300 = [0%Z; 300%Z].
Proof. reflexivity. Qed.

Example range_900 : range 0 (900 - 300) 300 = [0%Z; 300%Z].
Proof. reflexivity. Qed.

Example range_300 : range 0 (300 - 300) 300 = [].
Proof. reflexivity. Qed.

Example range_100 : range 0 (100 - 300) 300 = [].
Proof. reflexivity. Qed.

(** 650 samples, no classifier: two fallback entries, the last 50 samples
    are dropped. *)
Example segments_of_650_samples :
  segment_results (Return None) (repeat 0 650)
  = Return [fallback_entry 1; fallback_entry 2].
Proof. vm_compute. reflexivity. Qed.

(** C1 at 900 samples.  The range [range(0, 600, 300)] has the two
    elements 0 and 300: a signal of 900 samples gives two entries,
    numbered 1 and 2, and the window [600, 900) is never classified. *)
Theorem segments_of_900_samples
  (load_ecg_model : result (option Model)) (denoised_data : list Q)
  (results : list SegmentResult) :
  List.length denoised_data = 900%nat ->
  segment_results load_ecg_model denoised_data = Return results ->
  List.length results = 2%nat /\ map segment results = [1%Z; 2%Z].
Proof.
  intros HN H. apply segment_results_numbering in H.
  rewrite HN in H. change (segment_count 900) with 2%nat in H. simpl in H.
  split; [| exact H].
  rewrite <- (length_map segment), H. reflexivity.
Qed.

Lemma segments_of_900_samples_witness :
  List.length [fallback_entry 1; fallback_entry 2] = 2%nat
  /\ map segment [fallback_entry 1; fallback_entry 2] = [1%Z; 2%Z].
Proof.
  apply (segments_of_900_samples (Return None) (repeat 0 900)).
  - vm_compute. reflexivity.
  - vm_compute. reflexivity.
Defined.

(** ** The fallback of [predict_segment] *)

Lemma predict_segment_fallback (load_ecg_model : result (option Model))
  (segment : list Q) :
  classifier_fails load_ecg_model segment ->
  predict_segment load_ecg_model segment = Return (0%nat, default_probs).
Proof.
  unfold classifier_fails, predict_segment.
  destruct load_ecg_model as [[model |] | e]; simpl; try reflexivity.
  destruct (model segment) as [[c ps] | e]; simpl; [discriminate | reflexivity].
Qed.

Lemma predict_segment_success (load_ecg_model : result (option Model))
  (model : Model) (segment : list Q) (c : nat) (ps : list Q) :
  load_ecg_model = Return (Some model) ->
  model segment = Return (c, ps) ->
  predict_segment load_ecg_model segment = Return (c, ps).
Proof. intros -> H. unfold predict_segment. simpl. now rewrite H. Qed.

Lemma predict_segment_well_formed (load_ecg_model : result (option Model))
  (segment : list Q) :
  model_well_formed load_ecg_model ->
  exists c ps,
    predict_segment load_ecg_model segment = Return (c, ps)
    /\ (c < 5)%nat /\ List.length ps = 5%nat.
Proof.
  intros Hwf. unfold predict_segment.
  destruct load_ecg_model as [[model |] | e]; simpl.
  - destruct (model segment) as [[c ps] | e] eqn:E; simpl.
    + exists c, ps. split; [reflexivity |]. exact (Hwf model segment c ps eq_refl E).
    + exists 0%nat, default_probs. simpl. repeat split; lia.
  - exists 0%nat, default_probs. simpl. repeat split; lia.
  - exists 0%nat, default_probs. simpl. repeat split; lia.
Qed.

Lemma class_name_total (c : nat) :
  (c < 5)%nat -> exists name, class_name c = Return name.
Proof.
  intros Hc.
  do 5 (destruct c as [| c]; [eexists; reflexivity |]). lia.
Qed.

Lemma probabilities_dict_total (ps : list Q) :
  List.length ps = 5%nat ->
  map_m (fun '(i, prob) => cls <- class_name i ;; Return (cls, prob))
        (enumerate ps)
  = Return (combine LABELS ps).
Proof.
  intros H.
  do 5 (destruct ps as [| ? ps]; [discriminate H |]).
  destruct ps; [reflexivity | discriminate H].
Qed.

Lemma keys_combine {V : Type} (L : list string) (vs : list V) :
  List.length vs = List.length L -> keys (combine L vs) = L.
Proof.
  revert vs. induction L as [| l L IH]; intros [| v vs]; simpl; intros H;
    try reflexivity; try discriminate.
  f_equal. apply IH. lia.
Qed.

Lemma Forall2_seq_nth {A : Type} (P : nat -> A -> Prop) (n : nat) :
  forall (a : nat) (xs : list A),
  Forall2 P (seq a n) xs ->
  forall k, (k < n)%nat -> exists x, nth_error xs k = Some x /\ P (a + k)%nat x.
Proof.
  induction n as [| n IH]; simpl; intros a xs H k Hk; [lia |].
  inversion H as [| ? x ? xs' Hx Hxs]; subst.
  destruct k as [| k]; simpl.
  - exists x. rewrite Nat.add_0_r. auto.
  - destruct (IH (S a) xs' Hxs k) as (y & Hy & HP); [lia |].
    exists y. split; [exact Hy |].
    replace (a + S k)%nat with (S a + k)%nat by lia. exact HP.
Qed.

Section Fallback.

Variable load_ecg_model : result (option Model).
Variable denoised_data : list Q.
Hypothesis Hwf : model_well_formed load_ecg_model.

Lemma segment_body_total (results : list SegmentResult) (k : nat) :
  (k * 300 + 300 <= List.length denoised_data)%nat ->
  exists r,
    segment_body load_ecg_model denoised_data results (Z.of_nat k * 300)
    = Return (results ++ [r])%list
    /\ entry_of load_ecg_model denoised_data k r.
Proof.
  intros Hk. rewrite segment_body_unfold by assumption.
  destruct (predict_segment_well_formed load_ecg_model
              (window denoised_data k) Hwf) as (c & ps & Hp & Hc & Hps).
  destruct (class_name_total c Hc) as (name & Hname).
  rewrite Hp. cbn [bind]. rewrite Hname. cbn [bind].
  rewrite (probabilities_dict_total ps Hps). cbn [bind].
  eexists. split; [reflexivity |].
  split; [reflexivity |]. exists c, ps. simpl. auto.
Qed.

Lemma segment_loop_total (ks : list nat) :
  (forall k, In k ks -> (k * 300 + 300 <= List.length denoised_data)%nat) ->
  forall acc : list SegmentResult,
  exists rs,
    for_each (map (fun k => (Z.of_nat k * 300)%Z) ks)
             (segment_body load_ecg_model denoised_data) acc
    = Return (acc ++ rs)%list
    /\ Forall2 (entry_of load_ecg_model denoised_data) ks rs.
Proof.
  induction ks as [| k ks IH]; simpl; intros Hks acc.
  - exists []. rewrite app_nil_r. split; [reflexivity | constructor].
  - destruct (segment_body_total acc k) as (r & Hr & Hentry); [apply Hks; now left |].
    rewrite Hr. cbn [bind].
    destruct (IH (fun k' Hk' => Hks k' (or_intror Hk')) (acc ++ [r])%list)
      as (rs & Hrs & Hall).
    exists (r :: rs). rewrite Hrs, <- app_assoc.
    split; [reflexivity | now constructor].
Qed.

Lemma segment_results_total :
  exists results,
    segment_results load_ecg_model denoised_data = Return results
    /\ Forall2 (entry_of load_ecg_model denoised_data)
               (seq 0 (segment_count (List.length denoised_data))) results.
Proof.
  unfold segment_results. rewrite range_segments.
  destruct (segment_loop_total
              (seq 0 (segment_count (List.length denoised_data)))) with (acc := @nil SegmentResult)
    as (rs & Hrs & Hall).
  - intros k Hk. apply in_seq in Hk.
    pose proof (segment_count_bound (List.length denoised_data) k). lia.
  - exists rs. split; [exact Hrs | exact Hall].
Qed.

End Fallback.

Lemma entry_of_probs_ok (load_ecg_model : result (option Model))
  (denoised_data : list Q) (k : nat) (r : SegmentResult) :
  entry_of load_ecg_model denoised_data k r -> probs_ok r.
Proof.
  intros (_ & c & ps & _ & _ & Hprobs & Hlen).
  unfold probs_ok, dict_wf. rewrite Hprobs, keys_combine by exact Hlen.
  split; [exact NoDup_LABELS | apply incl_refl].
Qed.

(** * Further properties *)

(** ** The Kalman filter: length, errors, range, schedule, affine maps *)

Section KalmanMore.

Variables Qn Rn : Q.

Lemma kalman_loop_length (samples : list Q) :
  forall x_hat p tr,
  kalman_loop Qn Rn samples x_hat p = Return tr ->
  List.length tr = List.length samples.
Proof.
  induction samples as [| z rest IH]; simpl; intros x_hat p tr H.
  - injection H as <-. reflexivity.
  - bind_inv H st Hst. bind_inv H tr' Htr'. injection H as <-.
    simpl. f_equal. exact (IH _ _ _ Htr').
Qed.

Lemma kalman_update_raises (x_hat p z : Q) (e : exn) :
  kalman_update Qn Rn x_hat p z = Raise e -> e = ZeroDivisionError.
Proof.
  unfold kalman_update, div.
  destruct (Qeq_bool (p + Qn + Rn) 0); simpl; intros H.
  - now injection H as <-.
  - discriminate H.
Qed.

Lemma kalman_loop_raises (samples : list Q) :
  forall x_hat p e,
  kalman_loop Qn Rn samples x_hat p = Raise e -> e = ZeroDivisionError.
Proof.
  induction samples as [| z rest IH]; simpl; intros x_hat p e H.
  - discriminate H.
  - destruct (kalman_update Qn Rn x_hat p z) as [st | e'] eqn:Hst; simpl in H.
    + destruct (kalman_loop Qn Rn rest (step_x_hat st) (step_p st))
        as [tr | e''] eqn:Htr; simpl in H; [discriminate H |].
      injection H as <-. exact (IH _ _ _ Htr).
    + injection H as <-. exact (kalman_update_raises _ _ _ _ Hst).
Qed.

(** The update as equations, when it returns. *)
Lemma kalman_update_Return (x_hat p z : Q) (st : KalmanStep) :
  kalman_update Qn Rn x_hat p z = Return st ->
  ~ p + Qn + Rn == 0
  /\ step_K st = (p + Qn) / (p + Qn + Rn)
  /\ step_x_hat st = x_hat + step_K st * (z - x_hat)
  /\ step_p st = (1 - step_K st) * (p + Qn).
Proof.
  unfold kalman_update, div.
  destruct (Qeq_bool (p + Qn + Rn) 0) eqn:E; simpl; intros H; [discriminate H |].
  injection H as <-. simpl. repeat split.
  intros Hz. apply Qeq_bool_iff in Hz. congruence.
Qed.

(** With a gain in the unit interval the new estimate lies between the old
    estimate and the sample. *)
Lemma convex_step (lo hi K x z : Q) :
  0 < K -> K < 1 -> lo <= x -> x <= hi -> lo <= z -> z <= hi ->
  lo <= x + K * (z - x) /\ x + K * (z - x) <= hi.
Proof.
  intros HK0 HK1 Hx1 Hx2 Hz1 Hz2.
  assert (E1 : x + K * (z - x) - lo == (1 - K) * (x - lo) + K * (z - lo)) by ring.
  assert (E2 : hi - (x + K * (z - x)) == (1 - K) * (hi - x) + K * (hi - z)) by ring.
  assert (A1 : 0 <= (1 - K) * (x - lo)) by (apply Qmult_le_0_compat; lra).
  assert (A2 : 0 <= K * (z - lo)) by (apply Qmult_le_0_compat; lra).
  assert (A3 : 0 <= (1 - K) * (hi - x)) by (apply Qmult_le_0_compat; lra).
  assert (A4 : 0 <= K * (hi - z)) by (apply Qmult_le_0_compat; lra).
  split; lra.
Qed.

Lemma kalman_loop_range (lo hi : Q) (samples : list Q) :
  0 < Qn -> 0 < Rn ->
  Forall (fun s => lo <= s /\ s <= hi) samples ->
  forall x_hat p tr,
  0 < p -> lo <= x_hat -> x_hat <= hi ->
  kalman_loop Qn Rn samples x_hat p = Return tr ->
  Forall (fun y => lo <= y /\ y <= hi) (map step_x_hat tr).
Proof.
  intros HQ HR. induction 1 as [| z rest [Hz1 Hz2] Hrest IH];
    simpl; intros x_hat p tr Hp Hx1 Hx2 H.
  - injection H as <-. constructor.
  - bind_inv H st Hst. bind_inv H tr' Htr'. injection H as <-. simpl.
    destruct (kalman_update_gain Qn Rn x_hat p z HQ HR Hp)
      as (st0 & Hst0 & HK0 & HK1 & Hp').
    rewrite Hst in Hst0. injection Hst0 as <-.
    destruct (kalman_update_Return _ _ _ _ Hst) as (_ & _ & Ex & _).
    destruct (convex_step lo hi (step_K st) x_hat z) as [B1 B2]; try assumption.
    rewrite <- Ex in B1, B2.
    constructor; [split; assumption |].
    exact (IH _ _ _ Hp' B1 B2 Htr').
Qed.

(** The covariance after an update is [K * R], below [R]. *)
Lemma kalman_update_covariance (x_hat p z : Q) (st : KalmanStep) :
  0 < Qn -> 0 < Rn -> 0 < p ->
  kalman_update Qn Rn x_hat p z = Return st ->
  step_p st == step_K st * Rn /\ step_p st < Rn.
Proof.
  intros HQ HR Hp Hst.
  destruct (kalman_update_gain Qn Rn x_hat p z HQ HR Hp)
    as (st0 & Hst0 & HK0 & HK1 & Hp').
  rewrite Hst in Hst0. injection Hst0 as <-.
  destruct (kalman_update_Return _ _ _ _ Hst) as (Hden & EK & _ & Ep).
  assert (E : step_p st == step_K st * Rn).
  { rewrite Ep, EK. field. exact Hden. }
  split; [exact E |].
  rewrite E.
  assert (A : 0 < (1 - step_K st) * Rn) by (apply Qmult_lt_0_compat; lra).
  assert (E' : (1 - step_K st) * Rn == Rn - step_K st * Rn) by ring.
  lra.
Qed.

Lemma kalman_loop_covariance (samples : list Q) :
  0 < Qn -> 0 < Rn ->
  forall x_hat p tr,
  0 < p ->
  kalman_loop Qn Rn samples x_hat p = Return tr ->
  Forall (fun st => step_p st < Rn) tr.
Proof.
  intros HQ HR. induction samples as [| z rest IH];
    simpl; intros x_hat p tr Hp H.
  - injection H as <-. constructor.
  - bind_inv H st Hst. bind_inv H tr' Htr'. injection H as <-.
    destruct (kalman_update_gain Qn Rn x_hat p z HQ HR Hp)
      as (st0 & Hst0 & _ & _ & Hp').
    rewrite Hst in Hst0. injection Hst0 as <-.
    constructor.
    + exact (proj2 (kalman_update_covariance _ _ _ _ HQ HR Hp Hst)).
    + exact (IH _ _ _ Hp' Htr').
Qed.

(** The loop on an affine image of the samples: same gains, same
    covariances, and the affine image of every estimate. *)
Lemma kalman_loop_affine (a b : Q) (samples' samples : list Q) :
  Forall2 (fun z' z => z' == a * z + b) samples' samples ->
  forall x_hat' x_hat p tr,
  x_hat' == a * x_hat + b ->
  kalman_loop Qn Rn samples x_hat p = Return tr ->
  exists tr',
    kalman_loop Qn Rn samples' x_hat' p = Return tr'
    /\ Forall2 (affine_image a b) tr' tr.
Proof.
  induction 1 as [| z' z rest' rest Hz Hrest IH];
    simpl; intros x_hat' x_hat p tr Hx H.
  - injection H as <-. exists []. split; [reflexivity | constructor].
  - bind_inv H st Hst. bind_inv H tr0 Htr0. injection H as <-.
    destruct (kalman_update_Return _ _ _ _ Hst) as (Hden & EK & Ex & Ep).
    assert (Hupd : exists st',
               kalman_update Qn Rn x_hat' p z' = Return st'
               /\ affine_image a b st' st).
    { eexists. split.
      - unfold kalman_update. rewrite (div_nonzero _ _ Hden). reflexivity.
      - unfold affine_image, same_schedule. simpl.
        rewrite Ep, EK. repeat split.
        rewrite Ex, EK, Hz, Hx. ring. }
    destruct Hupd as (st' & Hst' & Himg).
    destruct (IH (step_x_hat st') (step_x_hat st) (step_p st) tr0
                (proj2 Himg) Htr0) as (tr0' & Htr0' & Hall).
    exists (st' :: tr0'). rewrite Hst'. cbn [bind].
    rewrite (proj2 (proj1 Himg)), Htr0'. cbn [bind].
    split; [reflexivity | constructor; assumption].
Qed.

End KalmanMore.

Lemma kalman_loop_schedule (Qn Rn : Q) (samples' samples : list Q) :
  List.length samples' = List.length samples ->
  forall x_hat' x_hat p tr,
  kalman_loop Qn Rn samples x_hat p = Return tr ->
  exists tr',
    kalman_loop Qn Rn samples' x_hat' p = Return tr'
    /\ Forall2 same_schedule tr' tr.
Proof.
  revert samples'.
  induction samples as [| z rest IH]; intros [| z' rest'] Hlen;
    try discriminate Hlen; simpl; intros x_hat' x_hat p tr H.
  - injection H as <-. exists []. split; [reflexivity | constructor].
  - bind_inv H st Hst. bind_inv H tr0 Htr0. injection H as <-.
    destruct (kalman_update_Return _ _ _ _ _ _ Hst) as (Hden & EK & _ & Ep).
    assert (Hupd : exists st',
               kalman_update Qn Rn x_hat' p z' = Return st'
               /\ same_schedule st' st).
    { eexists. split.
      - unfold kalman_update. rewrite (div_nonzero _ _ Hden). reflexivity.
      - unfold same_schedule. simpl. rewrite Ep, EK. split; reflexivity. }
    destruct Hupd as (st' & Hst' & Hsame).
    injection Hlen as Hlen.
    destruct (IH rest' Hlen (step_x_hat st') (step_x_hat st) (step_p st) tr0 Htr0)
      as (tr0' & Htr0' & Hall).
    exists (st' :: tr0'). rewrite Hst'. cbn [bind].
    rewrite (proj2 Hsame), Htr0'. cbn [bind].
    split; [reflexivity | constructor; assumption].
Qed.

Lemma hierarchical_kalman_filter_trace (signal : list Q) (Q1 R1 Q2 R2 : Q)
  (out : list Q) :
  hierarchical_kalman_filter signal Q1 R1 Q2 R2 = Return out ->
  exists s0 tr1 y0 tr2,
    nth_error signal 0 = Some s0
    /\ kalman_loop Q1 R1 signal s0 1 = Return tr1
    /\ nth_error (map step_x_hat tr1) 0 = Some y0
    /\ kalman_loop Q2 R2 (map step_x_hat tr1) y0 1 = Return tr2
    /\ hierarchical_kalman_trace signal Q1 R1 Q2 R2 = Return (tr1, tr2)
    /\ out = map step_x_hat tr2.
Proof.
  intros H. unfold hierarchical_kalman_filter in H.
  apply bind_Return_inv in H as ([tr1 tr2] & Htr & H). injection H as <-.
  pose proof Htr as Htrace.
  unfold hierarchical_kalman_trace in Htr.
  bind_inv Htr s0 Hs0. bind_inv Htr t1 Ht1.
  bind_inv Htr y0 Hy0. bind_inv Htr t2 Ht2. injection Htr as <- <-.
  exists s0, t1, y0, t2.
  unfold getitem in Hs0, Hy0.
  destruct (nth_error signal 0) as [s |] eqn:Es; [| discriminate Hs0].
  destruct (nth_error (map step_x_hat t1) 0) as [y |] eqn:Ey; [| discriminate Hy0].
  injection Hs0 as <-. injection Hy0 as <-.
  repeat split; assumption.
Qed.

Lemma hierarchical_kalman_filter_length (signal : list Q) (Q1 R1 Q2 R2 : Q)
  (out : list Q) :
  hierarchical_kalman_filter signal Q1 R1 Q2 R2 = Return out ->
  List.length out = List.length signal.
Proof.
  intros H.
  destruct (hierarchical_kalman_filter_trace _ _ _ _ _ _ H)
    as (s0 & tr1 & y0 & tr2 & _ & H1 & _ & H2 & _ & ->).
  apply kalman_loop_length in H1. apply kalman_loop_length in H2.
  rewrite !length_map in *. congruence.
Qed.

(** X1.  Whenever the filter returns, the output has as many samples as
    the input. *)
Theorem filter_preserves_length (signal : list Q) (Q1 R1 Q2 R2 : Q)
  (out : list Q) :
  hierarchical_kalman_filter signal Q1 R1 Q2 R2 = Return out ->
  List.length out = List.length signal.
Proof. exact (hierarchical_kalman_filter_length signal Q1 R1 Q2 R2 out). Qed.

Lemma filter_preserves_length_witness :
  List.length [(324 # 81); (202479021 # 34012224)] = List.length [4; 9].
Proof.
  apply (filter_preserves_length [4; 9] 1 1 1 1).
  vm_compute. reflexivity.
Defined.

(** X2.  The filter has two ways to fail and no other: [IndexError] on
    the empty signal, [ZeroDivisionError] on a non-empty one. *)
Theorem filter_failures (signal : list Q) (Q1 R1 Q2 R2 : Q) (e : exn) :
  hierarchical_kalman_filter signal Q1 R1 Q2 R2 = Raise e ->
  (signal = [] /\ e = IndexError)
  \/ (signal <> [] /\ e = ZeroDivisionError).
Proof.
  unfold hierarchical_kalman_filter, hierarchical_kalman_trace.
  destruct signal as [| s0 rest]; cbn [getitem nth_error bind]; intros H.
  - left. split; [reflexivity | now injection H as <-].
  - right. split; [discriminate |].
    destruct (kalman_loop Q1 R1 (s0 :: rest) s0 1) as [tr1 | e1] eqn:H1;
      cbn [bind] in H.
    + pose proof (kalman_loop_length _ _ _ _ _ _ H1) as Hlen.
      destruct tr1 as [| st1 tr1']; [discriminate Hlen |].
      cbn [map getitem nth_error bind] in H.
      destruct (kalman_loop Q2 R2 (step_x_hat st1 :: map step_x_hat tr1')
                  (step_x_hat st1) 1) as [tr2 | e2] eqn:H2;
        cbn [bind] in H; [discriminate H |].
      injection H as <-. exact (kalman_loop_raises _ _ _ _ _ _ H2).
    + injection H as <-. exact (kalman_loop_raises _ _ _ _ _ _ H1).
Qed.

Lemma filter_failures_witness :
  (([0] : list Q) = [] /\ ZeroDivisionError = IndexError)
  \/ (([0] : list Q) <> [] /\ ZeroDivisionError = ZeroDivisionError).
Proof.
  apply (filter_failures [0] 0 (-1) 0 1). reflexivity.
Defined.

(** X3.  With strictly positive noise parameters the filter does not
    overshoot: if every input sample lies in [[lo, hi]], so does every
    output sample. *)
Theorem filter_stays_in_range (lo hi : Q) (signal : list Q)
  (Q1 R1 Q2 R2 : Q) (out : list Q) :
  0 < Q1 -> 0 < R1 -> 0 < Q2 -> 0 < R2 ->
  Forall (fun s => lo <= s /\ s <= hi) signal ->
  hierarchical_kalman_filter signal Q1 R1 Q2 R2 = Return out ->
  Forall (fun y => lo <= y /\ y <= hi) out.
Proof.
  intros HQ1 HR1 HQ2 HR2 Hin H.
  destruct (hierarchical_kalman_filter_trace _ _ _ _ _ _ H)
    as (s0 & tr1 & y0 & tr2 & Hs0 & H1 & Hy0 & H2 & _ & ->).
  assert (Hp : 0 < 1) by reflexivity.
  assert (Hs : lo <= s0 /\ s0 <= hi).
  { rewrite Forall_forall in Hin. apply Hin.
    exact (nth_error_In signal 0 Hs0). }
  assert (Hmid : Forall (fun y => lo <= y /\ y <= hi) (map step_x_hat tr1)).
  { exact (kalman_loop_range Q1 R1 lo hi signal HQ1 HR1 Hin s0 1 tr1 Hp
             (proj1 Hs) (proj2 Hs) H1). }
  assert (Hy : lo <= y0 /\ y0 <= hi).
  { rewrite Forall_forall in Hmid. apply Hmid.
    exact (nth_error_In _ 0 Hy0). }
  exact (kalman_loop_range Q2 R2 lo hi _ HQ2 HR2 Hmid y0 1 tr2 Hp
           (proj1 Hy) (proj2 Hy) H2).
Qed.

Lemma filter_stays_in_range_witness :
  Forall (fun y => 4 <= y /\ y <= 9) [(324 # 81); (202479021 # 34012224)].
Proof.
  apply (filter_stays_in_range 4 9 [4; 9] 1 1 1 1); try reflexivity.
  repeat constructor; discriminate.
Defined.

(** X4, in exact arithmetic.  With strictly positive noise parameters
    the error covariance after every iteration is below the measurement
    noise of its stage.  (Over binary64 it can end above it when [R] is
    within a few units in the last place of 1.) *)
Theorem covariance_below_measurement_noise (signal : list Q)
  (Q1 R1 Q2 R2 : Q) (tr1 tr2 : list KalmanStep) :
  0 < Q1 -> 0 < R1 -> 0 < Q2 -> 0 < R2 ->
  hierarchical_kalman_trace signal Q1 R1 Q2 R2 = Return (tr1, tr2) ->
  Forall (fun st => step_p st < R1) tr1
  /\ Forall (fun st => step_p st < R2) tr2.
Proof.
  intros HQ1 HR1 HQ2 HR2 Htr.
  unfold hierarchical_kalman_trace in Htr.
  bind_inv Htr s0 Hs0. bind_inv Htr t1 Ht1.
  bind_inv Htr y0 Hy0. bind_inv Htr t2 Ht2. injection Htr as <- <-.
  assert (Hp : 0 < 1) by reflexivity.
  split.
  - exact (kalman_loop_covariance Q1 R1 signal HQ1 HR1 s0 1 t1 Hp Ht1).
  - exact (kalman_loop_covariance Q2 R2 _ HQ2 HR2 y0 1 t2 Hp Ht2).
Qed.

Lemma covariance_below_measurement_noise_witness :
  exists tr1 tr2,
    hierarchical_kalman_trace [4; 9] 1 1 1 1 = Return (tr1, tr2)
    /\ Forall (fun st => step_p st < 1) tr1
    /\ Forall (fun st => step_p st < 1) tr2.
Proof.
  destruct (hierarchical_kalman_trace [4; 9] 1 1 1 1) as [[tr1 tr2] | e] eqn:E.
  - exists tr1, tr2. split; [reflexivity |].
    apply (covariance_below_measurement_noise [4; 9] 1 1 1 1);
      try reflexivity. exact E.
  - vm_compute in E. discriminate E.
Defined.

(** X5.  The gains and the covariances do not depend on the data: two
    signals of the same length, filtered with the same parameters, go
    through the same gain and covariance at every iteration of either stage
    (and if the filter returns on one, it returns on the other). *)
Theorem gain_schedule_ignores_data (signal signal' : list Q)
  (Q1 R1 Q2 R2 : Q) (tr1 tr2 : list KalmanStep) :
  List.length signal' = List.length signal ->
  hierarchical_kalman_trace signal Q1 R1 Q2 R2 = Return (tr1, tr2) ->
  exists tr1' tr2',
    hierarchical_kalman_trace signal' Q1 R1 Q2 R2 = Return (tr1', tr2')
    /\ map step_K tr1' = map step_K tr1
    /\ map step_p tr1' = map step_p tr1
    /\ map step_K tr2' = map step_K tr2
    /\ map step_p tr2' = map step_p tr2.
Proof.
  intros Hlen Htr.
  unfold hierarchical_kalman_trace in Htr.
  bind_inv Htr s0 Hs0. bind_inv Htr t1 Ht1.
  bind_inv Htr y0 Hy0. bind_inv Htr t2 Ht2. injection Htr as <- <-.
  destruct signal as [| z rest]; [discriminate Hs0 |].
  destruct signal' as [| z' rest']; [discriminate Hlen |].
  destruct (kalman_loop_schedule Q1 R1 (z' :: rest') (z :: rest) Hlen
              z' s0 1 t1 Ht1) as (t1' & Ht1' & Hall1).
  pose proof (kalman_loop_length _ _ _ _ _ _ Ht1) as Hl1.
  pose proof (kalman_loop_length _ _ _ _ _ _ Ht1') as Hl1'.
  destruct t1' as [| st1' t1'']; [discriminate Hl1' |].
  destruct (kalman_loop_schedule Q2 R2 (map step_x_hat (st1' :: t1''))
              (map step_x_hat t1)
              ltac:(rewrite !length_map; congruence)
              (step_x_hat st1') y0 1 t2 Ht2) as (t2' & Ht2' & Hall2).
  exists (st1' :: t1''), t2'.
  assert (Hmaps : forall tr' tr, Forall2 same_schedule tr' tr ->
                    map step_K tr' = map step_K tr
                    /\ map step_p tr' = map step_p tr).
  { induction 1 as [| a b ta tb [HK Hp] _ [IHK IHp]]; simpl;
      [split; reflexivity | split; congruence]. }
  destruct (Hmaps _ _ Hall1) as [E1 E2]. destruct (Hmaps _ _ Hall2) as [E3 E4].
  split; [| repeat split; assumption].
  unfold hierarchical_kalman_trace. cbn [getitem nth_error bind].
  rewrite Ht1'. cbn [bind]. cbn [map getitem nth_error bind].
  cbn [map] in Ht2'. rewrite Ht2'. reflexivity.
Qed.

Lemma gain_schedule_ignores_data_witness :
  exists tr1 tr2 tr1' tr2',
    hierarchical_kalman_trace [4; 9] 1 1 1 1 = Return (tr1, tr2)
    /\ hierarchical_kalman_trace [-3; 100] 1 1 1 1 = Return (tr1', tr2')
    /\ map step_K tr1' = map step_K tr1
    /\ map step_p tr1' = map step_p tr1
    /\ map step_K tr2' = map step_K tr2
    /\ map step_p tr2' = map step_p tr2.
Proof.
  destruct (hierarchical_kalman_trace [4; 9] 1 1 1 1) as [[tr1 tr2] | e] eqn:E.
  - destruct (gain_schedule_ignores_data [4; 9] [-3; 100] 1 1 1 1 tr1 tr2
                eq_refl E) as (tr1' & tr2' & H).
    exists tr1, tr2, tr1', tr2'. split; [reflexivity | exact H].
  - vm_compute in E. discriminate E.
Defined.

Lemma Forall2_affine_map (a b : Q) (xs : list Q) :
  Forall2 (fun z' z => z' == a * z + b) (map (fun v => a * v + b) xs) xs.
Proof.
  induction xs as [| x xs IH]; simpl; constructor; [reflexivity | exact IH].
Qed.

Lemma Forall2_affine_estimates (a b : Q) (tr' tr : list KalmanStep) :
  Forall2 (affine_image a b) tr' tr ->
  Forall2 (fun y' y => y' == a * y + b)
          (map step_x_hat tr') (map step_x_hat tr).
Proof.
  induction 1 as [| st' st t' t [_ Hx] _ IH]; simpl; constructor; assumption.
Qed.

(** X6.  The filter commutes with affine maps of the signal: filtering
    [a * s + b] gives [a * y + b] for every output sample [y] of the
    filtered [s] (a baseline offset or a change of unit passes through
    unchanged). *)
Theorem filter_commutes_with_affine_maps (a b : Q) (signal : list Q)
  (Q1 R1 Q2 R2 : Q) (out : list Q) :
  hierarchical_kalman_filter signal Q1 R1 Q2 R2 = Return out ->
  exists out',
    hierarchical_kalman_filter (map (fun v => a * v + b) signal) Q1 R1 Q2 R2
    = Return out'
    /\ Forall2 (fun y' y => y' == a * y + b) out' out.
Proof.
  intros H.
  destruct (hierarchical_kalman_filter_trace _ _ _ _ _ _ H)
    as (s0 & tr1 & y0 & tr2 & Hs0 & H1 & Hy0 & H2 & _ & ->).
  destruct signal as [| z rest]; [discriminate Hs0 |].
  injection Hs0 as <-.
  destruct (kalman_loop_affine Q1 R1 a b _ _ (Forall2_affine_map a b (z :: rest))
              (a * z + b) z 1 tr1 ltac:(reflexivity) H1)
    as (tr1' & H1' & Hall1).
  pose proof (Forall2_affine_estimates a b _ _ Hall1) as Hmid.
  destruct tr1 as [| st1 t1]; [discriminate Hy0 |].
  injection Hy0 as <-.
  inversion Hall1 as [| st1' ? t1' ? Hst1 Ht1 E1 E2]; subst.
  destruct (kalman_loop_affine Q2 R2 a b _ _ Hmid
              (step_x_hat st1') (step_x_hat st1) 1 tr2 (proj2 Hst1) H2)
    as (tr2' & H2' & Hall2).
  exists (map step_x_hat tr2'). split.
  - unfold hierarchical_kalman_filter, hierarchical_kalman_trace.
    cbn [map getitem nth_error bind]. cbn [map] in H1'.
    rewrite H1'. cbn [bind]. cbn [map getitem nth_error bind].
    cbn [map] in H2'. rewrite H2'. reflexivity.
  - exact (Forall2_affine_estimates a b _ _ Hall2).
Qed.

Lemma filter_commutes_with_affine_maps_witness :
  exists out',
    hierarchical_kalman_filter (map (fun v => 2 * v + 10) [4; 9]) 1 1 1 1
    = Return out'
    /\ Forall2 (fun y' y => y' == 2 * y + 10) out'
               [(324 # 81); (202479021 # 34012224)].
Proof.
  apply (filter_commutes_with_affine_maps 2 10 [4; 9] 1 1 1 1).
  vm_compute. reflexivity.
Defined.

(** ** The aggregation: counts, confidence, failures *)

Lemma list_sum_counter_incr (c : Counter) (k : string) :
  list_sum (values (counter_incr c k)) = S (list_sum (values c)).
Proof.
  induction c as [| [k' n] c IH]; simpl; [reflexivity |].
  destruct (String.eqb k' k); simpl; [reflexivity | rewrite IH; lia].
Qed.

Lemma list_sum_Counter_of (xs : list string) :
  list_sum (values (Counter_of xs)) = List.length xs.
Proof.
  unfold Counter_of.
  assert (H : forall c, list_sum (values (fold_left counter_incr xs c))
                        = (list_sum (values c) + List.length xs)%nat).
  { induction xs as [| x xs IH]; intros c; simpl; [lia |].
    rewrite IH, list_sum_counter_incr. lia. }
  now rewrite H.
Qed.

(** X7.  The counts of [distribution] add up to the number of segment
    results. *)
Theorem distribution_counts_every_segment
  (predictions : list SegmentResult) (agg : AggregateResult) :
  calculate_final_prediction predictions = Return agg ->
  list_sum (values (distribution agg)) = List.length predictions.
Proof.
  intros H. rewrite (calculate_final_prediction_distribution _ _ H).
  now rewrite list_sum_Counter_of, length_map.
Qed.

Lemma distribution_counts_every_segment_witness :
  list_sum (values (distribution tie_aggregate)) = List.length tie_predictions.
Proof.
  apply (distribution_counts_every_segment tie_predictions tie_aggregate).
  vm_compute. reflexivity.
Defined.

Lemma round_half_even_bounds (y : Q) (M : Z) :
  0 <= y -> y <= inject_Z M ->
  (0 <= round_half_even y <= M)%Z.
Proof.
  intros H0 HM. unfold round_half_even.
  assert (Hf0 : (0 <= Qfloor y)%Z).
  { change 0%Z with (Qfloor 0). now apply Qfloor_resp_le. }
  assert (HfM : (Qfloor y <= M)%Z).
  { rewrite <- (Qfloor_Z M). now apply Qfloor_resp_le. }
  assert (Hup : inject_Z (Qfloor y) < y -> (Qfloor y + 1 <= M)%Z).
  { intros Hlt.
    assert (Hlt' : inject_Z (Qfloor y) < inject_Z M) by lra.
    rewrite <- Zlt_Qlt in Hlt'. lia. }
  destruct (Qcompare (y - inject_Z (Qfloor y)) (1 # 2)) eqn:E.
  - apply Qeq_alt in E.
    destruct (Z.even (Qfloor y)); [lia |].
    assert (inject_Z (Qfloor y) < y) by lra. specialize (Hup H). lia.
  - lia.
  - apply Qgt_alt in E.
    assert (inject_Z (Qfloor y) < y) by lra. specialize (Hup H). lia.
Qed.

Lemma round2_bounds (q : Q) :
  0 <= q -> q <= 100 -> 0 <= round2 q /\ round2 q <= 100.
Proof.
  intros H0 H1. unfold round2.
  destruct (round_half_even_bounds (q * 100) 10000) as [Hlo Hhi].
  - lra.
  - change (inject_Z 10000) with 10000. lra.
  - rewrite Zle_Qle in Hlo, Hhi.
    change (inject_Z 0) with 0 in Hlo. change (inject_Z 10000) with 10000 in Hhi.
    split.
    + apply Qle_shift_div_l; [reflexivity | lra].
    + apply Qle_shift_div_r; [reflexivity | lra].
Qed.

Lemma calculate_final_prediction_confidence
  (predictions : list SegmentResult) (agg : AggregateResult) :
  calculate_final_prediction predictions = Return agg ->
  predictions <> []
  /\ confidence agg
     = round2 (inject_Z (Z.of_nat (occurrences (final_class agg) predictions))
               / inject_Z (Z.of_nat (List.length predictions)) * 100).
Proof.
  unfold calculate_final_prediction. intros H.
  apply bind_Return_inv in H as (w & Hw & H).
  apply bind_Return_inv in H as (r & Hr & H).
  apply bind_Return_inv in H as (t & _ & H).
  apply bind_Return_inv in H as (avg & _ & H).
  injection H as <-. simpl. split.
  - intros ->. discriminate Hw.
  - unfold div in Hr.
    destruct (Qeq_bool (inject_Z (Z.of_nat (List.length predictions))) 0);
      [discriminate Hr |].
    injection Hr as <-.
    now rewrite counter_getitem_Counter_of.
Qed.

Lemma occurrences_le_length (l : string) (predictions : list SegmentResult) :
  (occurrences l predictions <= List.length predictions)%nat.
Proof.
  unfold occurrences. rewrite <- (length_map prediction predictions).
  apply count_occ_bound.
Qed.

(** X8.  [confidence] lies between 0 and 100.  (Here the percentage
    [count / len * 100] is exact before it is rounded to two decimals; the
    source rounds the double nearest to it, which stays within the same
    bounds.) *)
Theorem confidence_is_a_percentage
  (predictions : list SegmentResult) (agg : AggregateResult) :
  calculate_final_prediction predictions = Return agg ->
  0 <= confidence agg /\ confidence agg <= 100.
Proof.
  intros H.
  destruct (calculate_final_prediction_confidence _ _ H) as [Hne Hc].
  rewrite Hc.
  pose proof (length_positive predictions Hne) as Hn.
  pose proof (occurrences_le_length (final_class agg) predictions) as Hle.
  set (n := inject_Z (Z.of_nat (List.length predictions))) in *.
  set (k := inject_Z (Z.of_nat (occurrences (final_class agg) predictions))).
  assert (Hk0 : 0 <= k).
  { unfold k. change 0 with (inject_Z 0). rewrite <- Zle_Qle. lia. }
  assert (Hkn : k <= n).
  { unfold k, n. rewrite <- Zle_Qle. lia. }
  assert (Hr0 : 0 <= k / n) by (apply Qle_shift_div_l; lra).
  assert (Hr1 : k / n <= 1) by (apply Qle_shift_div_r; lra).
  apply round2_bounds; lra.
Qed.

Lemma confidence_is_a_percentage_witness :
  0 <= confidence tie_aggregate /\ confidence tie_aggregate <= 100.
Proof.
  apply (confidence_is_a_percentage tie_predictions tie_aggregate).
  vm_compute. reflexivity.
Defined.

Lemma dict_iadd_absent (d : dict Q) (k : string) (v : Q) :
  ~ In k (keys d) -> dict_iadd d k v = Raise KeyError.
Proof.
  induction d as [| [k' x] d IH]; simpl; intros Hnin; [reflexivity |].
  destruct (String.eqb_spec k' k) as [-> | Hne].
  - exfalso. apply Hnin. now left.
  - rewrite IH; [reflexivity |]. intros Hin. apply Hnin. now right.
Qed.

Lemma add_vector_foreign (probs : dict Q) :
  forall total : dict Q,
  ~ incl (keys probs) (keys total) ->
  for_each probs (fun total '(cls, prob) => dict_iadd total cls prob) total
  = Raise KeyError.
Proof.
  induction probs as [| [k v] probs IH]; simpl; intros total Hnincl.
  - exfalso. apply Hnincl. intros x [].
  - destruct (in_dec string_dec k (keys total)) as [Hin | Hnin].
    + destruct (dict_iadd_spec total k v Hin) as (d1 & Hd1 & Hk1 & _).
      rewrite Hd1. cbn [bind]. apply IH. rewrite Hk1.
      intros Hincl. apply Hnincl. now apply incl_cons.
    + now rewrite dict_iadd_absent.
Qed.

Lemma add_vectors_foreign (predictions : list SegmentResult) :
  forall total : dict Q,
  Exists (fun r => ~ incl (keys (probabilities r)) (keys total)) predictions ->
  for_each predictions
    (fun total prediction =>
       for_each (probabilities prediction)
         (fun total '(cls, prob) => dict_iadd total cls prob) total)
    total = Raise KeyError.
Proof.
  induction predictions as [| r predictions IH]; simpl; intros total Hex.
  - inversion Hex.
  - destruct (incl_dec string_dec (keys (probabilities r)) (keys total))
      as [Hincl | Hnincl].
    + destruct (add_vector_spec (probabilities r) total Hincl)
        as (d1 & Hd1 & Hk1 & _).
      rewrite Hd1. cbn [bind]. apply IH. rewrite Hk1.
      inversion Hex as [? ? Hr | ? ? Hrest]; subst; [contradiction | exact Hrest].
    + now rewrite add_vector_foreign.
Qed.

Lemma calculate_final_prediction_head (predictions : list SegmentResult) :
  predictions <> [] ->
  exists w ratio,
    py_max (counter_getitem (Counter_of (map prediction predictions)))
           (keys (Counter_of (map prediction predictions))) = Return w
    /\ div (inject_Z (Z.of_nat (counter_getitem
                                  (Counter_of (map prediction predictions)) w)))
           (inject_Z (Z.of_nat (List.length predictions))) = Return ratio.
Proof.
  intros Hne.
  destruct (py_max_total
              (counter_getitem (Counter_of (map prediction predictions)))
              (keys (Counter_of (map prediction predictions)))) as (w & Hw).
  { destruct predictions as [| r rest]; [contradiction |].
    intros E.
    assert (Hin : In (prediction r)
                     (keys (Counter_of (map prediction (r :: rest))))).
    { apply in_keys_Counter_of. now left. }
    rewrite E in Hin. exact Hin. }
  exists w. eexists. split; [exact Hw |].
  apply div_nonzero. pose proof (length_positive predictions Hne). lra.
Qed.

(** X9.  On a non-empty list the aggregation returns a result when the
    keys of every probability vector are among the five labels, and raises
    [KeyError] when some vector has a key outside them; one of the two
    holds. *)
Theorem aggregation_rejects_foreign_labels (predictions : list SegmentResult) :
  predictions <> [] ->
  (Forall (fun r => incl (keys (probabilities r)) LABELS) predictions
   /\ exists agg, calculate_final_prediction predictions = Return agg)
  \/ (Exists (fun r => ~ incl (keys (probabilities r)) LABELS) predictions
      /\ calculate_final_prediction predictions = Raise KeyError).
Proof.
  intros Hne.
  destruct (calculate_final_prediction_head predictions Hne)
    as (w & ratio & Hw & Hratio).
  destruct (Forall_Exists_dec
              (fun r => incl (keys (probabilities r)) LABELS)
              (fun r => incl_dec string_dec (keys (probabilities r)) LABELS)
              predictions) as [Hall | Hex].
  - left. split; [exact Hall |].
    destruct (add_vectors_spec predictions (map (fun cls => (cls, 0)) LABELS))
      as (total & Htotal & _ & _).
    { now rewrite keys_zero_dict. }
    eexists. unfold calculate_final_prediction.
    rewrite Hw. cbn [bind]. rewrite Hratio. cbn [bind].
    rewrite Htotal. cbn [bind].
    rewrite average_spec; [reflexivity |].
    pose proof (length_positive predictions Hne). lra.
  - right. split; [exact Hex |].
    unfold calculate_final_prediction.
    rewrite Hw. cbn [bind]. rewrite Hratio. cbn [bind].
    rewrite add_vectors_foreign; [reflexivity |].
    now rewrite keys_zero_dict.
Qed.

Lemma aggregation_rejects_foreign_labels_witness :
  (Forall (fun r => incl (keys (probabilities r)) LABELS)
          [foreign_key_prediction]
   /\ exists agg,
        calculate_final_prediction [foreign_key_prediction] = Return agg)
  \/ (Exists (fun r => ~ incl (keys (probabilities r)) LABELS)
             [foreign_key_prediction]
      /\ calculate_final_prediction [foreign_key_prediction] = Raise KeyError).
Proof.
  apply (aggregation_rejects_foreign_labels [foreign_key_prediction]).
  discriminate.
Defined.

(** The vector with the key "Paced Beat (P)" stops the aggregation. *)
Example foreign_key_raises :
  calculate_final_prediction [foreign_key_prediction] = Raise KeyError.
Proof. reflexivity. Qed.

(** ** The segment loop: count, short signals, a classifier out of contract *)

Lemma segment_count_nat (N : nat) : segment_count N = ((N - 1) / 300)%nat.
Proof.
  unfold segment_count. destruct N as [| N].
  - reflexivity.
  - replace (Z.of_nat (S N) - 1)%Z with (Z.of_nat N) by lia.
    replace (S N - 1)%nat with N by lia.
    rewrite <- (Nat2Z.id (N / 300)). f_equal.
    now rewrite Nat2Z.inj_div.
Qed.

(** X10.  When the loop returns, it has produced [(N - 1) / 300] entries,
    rounded down, for a signal of N samples, and they are numbered 1, 2,
    ... in order. *)
Theorem segment_count_law
  (load_ecg_model : result (option Model)) (denoised_data : list Q)
  (results : list SegmentResult) :
  segment_results load_ecg_model denoised_data = Return results ->
  List.length results = ((List.length denoised_data - 1) / 300)%nat
  /\ map segment results
     = map (fun k => (Z.of_nat k + 1)%Z) (seq 0 (List.length results)).
Proof.
  intros H. apply segment_results_numbering in H.
  assert (Hlen : List.length results
                 = segment_count (List.length denoised_data)).
  { rewrite <- (length_map segment), H, length_map, length_seq. reflexivity. }
  split.
  - now rewrite Hlen, segment_count_nat.
  - now rewrite Hlen.
Qed.

Lemma segment_count_law_witness :
  List.length [fallback_entry 1; fallback_entry 2]
  = ((List.length (repeat 0 650) - 1) / 300)%nat
  /\ map segment [fallback_entry 1; fallback_entry 2]
     = map (fun k => (Z.of_nat k + 1)%Z)
           (seq 0 (List.length [fallback_entry 1; fallback_entry 2])).
Proof.
  apply (segment_count_law (Return None) (repeat 0 650)).
  vm_compute. reflexivity.
Defined.

Lemma segment_results_short
  (load_ecg_model : result (option Model)) (denoised_data : list Q) :
  (List.length denoised_data <= 300)%nat ->
  segment_results load_ecg_model denoised_data = Return [].
Proof.
  intros HN. unfold segment_results. rewrite range_segments.
  replace (segment_count (List.length denoised_data)) with 0%nat;
    [reflexivity |].
  rewrite segment_count_nat. symmetry. apply Nat.div_small. lia.
Qed.

(** X11.  A signal of at most 300 samples, one full window included, gives
    no entry at all, whatever the classifier. *)
Theorem short_signal_has_no_segment
  (load_ecg_model : result (option Model)) (denoised_data : list Q) :
  (List.length denoised_data <= 300)%nat ->
  segment_results load_ecg_model denoised_data = Return [].
Proof. exact (segment_results_short load_ecg_model denoised_data). Qed.

Lemma short_signal_has_no_segment_witness :
  segment_results (Return (Some flaky_model)) (repeat 1 300) = Return [].
Proof.
  apply (short_signal_has_no_segment (Return (Some flaky_model)) (repeat 1 300)).
  rewrite repeat_length. lia.
Defined.

Lemma class_name_out_of_range (c : nat) :
  (5 <= c)%nat -> class_name c = Raise KeyError.
Proof.
  intros Hc. do 5 (destruct c as [| c]; [lia |]). reflexivity.
Qed.

Lemma probabilities_dict_too_long (ps : list Q) :
  (5 < List.length ps)%nat ->
  map_m (fun '(i, prob) => cls <- class_name i ;; Return (cls, prob))
        (enumerate ps)
  = Raise KeyError.
Proof.
  intros H.
  do 6 (destruct ps as [| ? ps]; [simpl in H; lia |]).
  reflexivity.
Qed.

(** X12.  The loop trusts the classifier: when the answer for the first
    window has a class id of 5 or more, or more than 5 probabilities, the
    lookup in [CLASS_MAPPING] raises [KeyError] and the loop stops. *)
Theorem classifier_out_of_contract_raises
  (model : Model) (denoised_data : list Q) (c : nat) (ps : list Q) :
  (300 < List.length denoised_data)%nat ->
  model (window denoised_data 0) = Return (c, ps) ->
  (5 <= c)%nat \/ (5 < List.length ps)%nat ->
  segment_results (Return (Some model)) denoised_data = Raise KeyError.
Proof.
  intros HN Hm Hbad. unfold segment_results. rewrite range_segments.
  assert (Hcnt : exists n, segment_count (List.length denoised_data) = S n).
  { rewrite segment_count_nat.
    destruct ((List.length denoised_data - 1) / 300)%nat eqn:E; [| eauto].
    apply Nat.div_small_iff in E; lia. }
  destruct Hcnt as (n & ->).
  cbn [seq map for_each].
  rewrite (segment_body_unfold (Return (Some model)) denoised_data [] 0)
    by (simpl; lia).
  rewrite (predict_segment_success (Return (Some model)) model _ c ps eq_refl Hm).
  cbn [bind].
  destruct (Nat.le_gt_cases 5 c) as [Hc | Hc].
  - rewrite (class_name_out_of_range c Hc). reflexivity.
  - destruct Hbad as [Hc' | Hps]; [lia |].
    destruct (class_name_total c Hc) as (name & ->). cbn [bind].
    rewrite (probabilities_dict_too_long ps Hps). reflexivity.
Qed.

Lemma classifier_out_of_contract_raises_witness :
  segment_results (Return (Some rogue_model)) mixed_signal = Raise KeyError.
Proof.
  apply (classifier_out_of_contract_raises rogue_model mixed_signal
           7%nat [0; 0; 0; 0; 0]).
  - unfold mixed_signal. rewrite length_app, !repeat_length. lia.
  - reflexivity.
  - left. lia.
Defined.

(** ** [process_ecg_data]: what reaches the caller *)

Lemma process_ecg_data_cases
  (render_plot : Z * Z -> list Q -> list Q -> result string)
  (cfg : Settings) (data : list Q) :
  let kf := kalman_filter cfg in
  let filtered :=
    hierarchical_kalman_filter data (Q1 kf) (R1 kf) (Q2 kf) (R2 kf) in
  let plot denoised :=
    render_plot (plot_figsize cfg)
                (slice_to data (plot_sample_size cfg))
                (slice_to denoised (plot_sample_size cfg)) in
  (exists denoised graph,
      filtered = Return denoised
      /\ plot denoised = Return graph
      /\ process_ecg_data render_plot cfg data
         = Return (Some denoised, Some graph))
  \/ (((exists e, filtered = Raise e)
       \/ (exists denoised e,
             filtered = Return denoised /\ plot denoised = Raise e))
      /\ process_ecg_data render_plot cfg data = Return (None, None)).
Proof.
  intros kf filtered plot. unfold process_ecg_data. fold kf. fold filtered.
  destruct filtered as [denoised | e] eqn:Ef; cbn [bind try_except].
  - fold (plot denoised).
    destruct (plot denoised) as [graph | e] eqn:Ep; cbn [bind try_except].
    + left. exists denoised, graph. auto.
    + right. split; [right; exists denoised, e; auto | reflexivity].
  - right. split; [left; exists e; reflexivity | reflexivity].
Qed.

(** X13.  [process_ecg_data] never raises.  It returns the denoised signal
    and the plot when both the filter and the plot succeed; when the filter
    raises, or when the filter succeeds and the plot raises, it returns
    [(None, None)]: a failing plot discards the denoised signal. *)
Theorem process_ecg_data_outcomes
  (render_plot : Z * Z -> list Q -> list Q -> result string)
  (cfg : Settings) (data : list Q) :
  let kf := kalman_filter cfg in
  let filtered :=
    hierarchical_kalman_filter data (Q1 kf) (R1 kf) (Q2 kf) (R2 kf) in
  let plot denoised :=
    render_plot (plot_figsize cfg)
                (slice_to data (plot_sample_size cfg))
                (slice_to denoised (plot_sample_size cfg)) in
  (exists denoised graph,
      filtered = Return denoised
      /\ plot denoised = Return graph
      /\ process_ecg_data render_plot cfg data
         = Return (Some denoised, Some graph))
  \/ (((exists e, filtered = Raise e)
       \/ (exists denoised e,
             filtered = Return denoised /\ plot denoised = Raise e))
      /\ process_ecg_data render_plot cfg data = Return (None, None)).
Proof. exact (process_ecg_data_cases render_plot cfg data). Qed.

(** The filter succeeds, the plot fails: nothing is returned. *)
Example broken_plot_discards_signal :
  process_ecg_data plot_broken settings [4; 9] = Return (None, None).
Proof. reflexivity. Qed.

(** ** [load_ecg_model]: the cache and the silent fallback *)

Section LoaderFacts.

Variable ModelObj : Type.
Variable LSTM : result ModelObj.
Variable path_exists : bool.
Variable load_state_dict : ModelObj -> result unit.
Variable eval : ModelObj -> result unit.



End LoaderFacts.



(** X15.  A weight file that is missing or cannot be loaded is not an
    error: as long as the model can be built and put in evaluation mode, the
    first call returns the model, with whatever weights it has, and keeps
    it. *)
Theorem missing_weights_are_not_an_error (ModelObj : Type)
  (LSTM : result ModelObj) (path_exists : bool)
  (load_state_dict eval : ModelObj -> result unit) (m : ModelObj) :
  LSTM = Return m ->
  eval m = Return tt ->
  Loader.load_ecg_model ModelObj LSTM path_exists load_state_dict eval None
  = (Return m, Some m).
Proof.
  intros HL He. unfold Loader.load_ecg_model. rewrite HL.
  destruct path_exists; simpl.
  - destruct (load_state_dict m) as [[] | e]; simpl; now rewrite He.
  - now rewrite He.
Qed.

Lemma missing_weights_are_not_an_error_witness :
  Loader.load_ecg_model nat (Return 1%nat) true
    (fun _ => Raise RuntimeError) (fun _ => Return tt) None
  = (Return 1%nat, Some 1%nat).
Proof.
  apply (missing_weights_are_not_an_error nat (Return 1%nat) true
           (fun _ => Raise RuntimeError) (fun _ => Return tt) 1%nat);
    reflexivity.
Defined.

(** ** [get_file_path] *)

Lemma prefix_app (p s : string) : String.prefix p (p ++ s) = true.
Proof.
  induction p as [| a p IH]; simpl; [now destruct s |].
  destruct (Ascii.ascii_dec a a) as [_ | Hne]; [exact IH | contradiction].
Qed.

Lemma drop_app (p s : string) : Paths.drop (String.length p) (p ++ s) = s.
Proof. induction p as [| a p IH]; simpl; [reflexivity | exact IH]. Qed.

Lemma replace_first_prefix (old new s : string) :
  Paths.replace_first old new (old ++ s) = new ++ s.
Proof.
  assert (E : forall t, Paths.replace_first old new t
                        = if String.prefix old t
                          then new ++ Paths.drop (String.length old) t
                          else match t with
                               | EmptyString => EmptyString
                               | String c t' =>
                                   String c (Paths.replace_first old new t')
                               end)
    by (intros [| c t]; reflexivity).
  now rewrite E, prefix_app, drop_app.
Qed.

(** X16.  A stored path that is absolute is returned as it is: [base_dir]
    plays no part. *)
Theorem absolute_path_ignores_base_dir
  (base_dir upload_folder relative_path : string) :
  Paths.startswith relative_path "/" = true ->
  Paths.get_file_path base_dir upload_folder relative_path = relative_path.
Proof.
  intros Habs. unfold Paths.get_file_path.
  assert (Hnot : Paths.startswith relative_path "uploads" = false).
  { unfold Paths.startswith in *.
    destruct relative_path as [| c r]; [discriminate Habs |].
    change (String.prefix "/" (String c r))
      with (if Ascii.ascii_dec "/"%char c then String.prefix "" r else false)
      in Habs.
    destruct (Ascii.ascii_dec "/"%char c) as [<- | _]; [| discriminate Habs].
    reflexivity. }
  rewrite Hnot. simpl.
  replace (if negb (Paths.startswith relative_path upload_folder)
           then relative_path else relative_path)
    with relative_path by (now destruct (negb _)).
  unfold Paths.path_join. now rewrite Habs.
Qed.

Lemma absolute_path_ignores_base_dir_witness :
  Paths.get_file_path "/srv/app/backend/ecg" "uploads" "/etc/passwd"
  = "/etc/passwd".
Proof.
  apply (absolute_path_ignores_base_dir "/srv/app/backend/ecg" "uploads"
           "/etc/passwd").
  reflexivity.
Defined.

(** X17.  With an upload folder other than "uploads", a stored legacy
    path "uploads..." resolves to the same file as the path with the
    upload folder in place of that prefix. *)
Theorem legacy_path_is_rewritten (base_dir upload_folder rest : string) :
  upload_folder <> "uploads" ->
  Paths.startswith ("uploads" ++ rest) upload_folder = false ->
  Paths.get_file_path base_dir upload_folder ("uploads" ++ rest)
  = Paths.path_join base_dir (upload_folder ++ rest)
  /\ Paths.get_file_path base_dir upload_folder ("uploads" ++ rest)
     = Paths.get_file_path base_dir upload_folder (upload_folder ++ rest).
Proof.
  intros Hne Hnot.
  assert (E1 : Paths.get_file_path base_dir upload_folder ("uploads" ++ rest)
               = Paths.path_join base_dir (upload_folder ++ rest)).
  { unfold Paths.get_file_path. rewrite Hnot. cbn [negb].
    unfold Paths.startswith at 1. rewrite (prefix_app "uploads" rest).
    apply String.eqb_neq in Hne. rewrite Hne. cbn [negb andb].
    now rewrite replace_first_prefix. }
  split; [exact E1 |]. rewrite E1.
  unfold Paths.get_file_path, Paths.startswith.
  now rewrite (prefix_app upload_folder rest).
Qed.

Lemma legacy_path_is_rewritten_witness :
  Paths.get_file_path "/srv/app" "data" ("uploads" ++ "/ecg/100.dat")
  = Paths.path_join "/srv/app" ("data" ++ "/ecg/100.dat")
  /\ Paths.get_file_path "/srv/app" "data" ("uploads" ++ "/ecg/100.dat")
     = Paths.get_file_path "/srv/app" "data" ("data" ++ "/ecg/100.dat").
Proof.
  apply (legacy_path_is_rewritten "/srv/app" "data" "/ecg/100.dat").
  - discriminate.
  - reflexivity.
Defined.

(** ** The upload route *)

Section UploadFacts.

Variable render_plot : Z * Z -> list Q -> list Q -> result string.
Variable load_ecg_model : result (option Model).
Variable cfg : Settings.
Variable record_dir : string.
Variable makedirs : result unit.
Variable save_file : UploadFile -> string -> result unit.
Variable record_path_of : list string -> string.
Variable rdrecord : string -> result (list Q).
Variable test_signal : list Q.

(** A signal of at most 300 samples never gets through the analysis of
    the record. *)
Lemma analyze_record_short (signal : list Q) :
  (List.length signal <= 300)%nat ->
  exists e, analyze_record render_plot load_ecg_model cfg signal = Raise e.
Proof.
  intros HN. unfold analyze_record.
  destruct (process_ecg_data_cases render_plot cfg signal)
    as [(d & g & Hd & _ & ->) | [_ ->]]; cbn [bind].
  - apply hierarchical_kalman_filter_length in Hd.
    rewrite segment_results_short by lia. cbn [bind]. eauto.
  - eauto.
Qed.

(** With a plot that works, positive settings and a classifier within its
    contract, a signal of more than 300 samples goes through every stage. *)
Lemma analysis_succeeds (signal : list Q) :
  plot_total render_plot ->
  kalman_settings_positive cfg ->
  model_well_formed load_ecg_model ->
  (300 < List.length signal)%nat ->
  exists d g results agg,
    process_ecg_data render_plot cfg signal = Return (Some d, Some g)
    /\ segment_results load_ecg_model d = Return results
    /\ List.length results = ((List.length signal - 1) / 300)%nat
    /\ map segment results
       = map (fun k => (Z.of_nat k + 1)%Z) (seq 0 (List.length results))
    /\ results <> []
    /\ calculate_final_prediction results = Return agg.
Proof.
  intros Hplot (HQ1 & HR1 & HQ2 & HR2) Hwf HN.
  assert (Hne : signal <> []) by (intros ->; simpl in HN; lia).
  destruct (hierarchical_kalman_trace_total signal _ _ _ _ Hne HQ1 HR1 HQ2 HR2)
    as (tr1 & tr2 & Htr & _ & Hl2 & _).
  set (d := map step_x_hat tr2).
  assert (Hd : hierarchical_kalman_filter signal
                 (Q1 (kalman_filter cfg)) (R1 (kalman_filter cfg))
                 (Q2 (kalman_filter cfg)) (R2 (kalman_filter cfg)) = Return d).
  { unfold hierarchical_kalman_filter. now rewrite Htr. }
  assert (Hlen : List.length d = List.length signal).
  { unfold d. now rewrite length_map. }
  destruct (Hplot (plot_figsize cfg)
              (slice_to signal (plot_sample_size cfg))
              (slice_to d (plot_sample_size cfg))) as (g & Hg).
  destruct (segment_results_total load_ecg_model d Hwf) as (results & Hres & Hall).
  pose proof (segment_results_numbering _ _ _ Hres) as Hnum.
  assert (Hcount : List.length results = segment_count (List.length d)).
  { apply Forall2_length in Hall. now rewrite length_seq in Hall. }
  assert (Hpos : results <> []).
  { intros ->. simpl in Hcount. rewrite segment_count_nat, Hlen in Hcount.
    symmetry in Hcount. apply Nat.div_small_iff in Hcount; lia. }
  destruct (calculate_final_prediction_spec results Hpos) as (agg & Hagg & _).
  { clear - Hall. induction Hall as [| k r ks rs Hr _ IH]; constructor.
    - exact (entry_of_probs_ok _ _ _ _ Hr).
    - exact IH. }
  exists d, g, results, agg. repeat split; try assumption.
  - unfold process_ecg_data. rewrite Hd. cbn [bind]. rewrite Hg. reflexivity.
  - now rewrite Hcount, segment_count_nat, Hlen.
  - now rewrite Hnum, Hcount.
Qed.

Lemma save_nothing (file : list UploadFile) :
  Forall (fun f => filename f = None \/ filename f = Some "") file ->
  forall acc,
  for_each file (save_body record_dir save_file) acc = Return acc.
Proof.
  induction 1 as [| f file Hf _ IH]; intros acc; simpl; [reflexivity |].
  unfold save_body at 1.
  destruct Hf as [-> | ->]; simpl; apply IH.
Qed.

(** X18.  Whatever goes wrong in the route, the client sees status 500:
    no other exception leaves [upload_ecg_files]. *)
Theorem upload_failures_are_500 (file : list UploadFile) (e : exn) :
  upload_ecg_files render_plot load_ecg_model cfg record_dir makedirs
    save_file record_path_of rdrecord test_signal file = Raise e ->
  e = HTTPException 500.
Proof.
  unfold upload_ecg_files, try_except at 1.
  match goal with
  | |- context [match ?b with Return _ => _ | Raise _ => _ end = Raise e] =>
      destruct b
  end; intros H; [discriminate H | now injection H].
Qed.

(** X19.  An upload without a usable file (no file at all, or only files
    without a name) is answered with status 500: the status 400 raised for
    it inside the route is caught by the route's own handler. *)
Theorem unusable_upload_is_500 (file : list UploadFile) :
  Forall (fun f => filename f = None \/ filename f = Some "") file ->
  upload_ecg_files render_plot load_ecg_model cfg record_dir makedirs
    save_file record_path_of rdrecord test_signal file
  = Raise (HTTPException 500).
Proof.
  intros Hall. unfold upload_ecg_files.
  destruct file as [| f rest]; [reflexivity |].
  destruct makedirs as [[] | e]; cbn [bind]; [| reflexivity].
  rewrite (save_nothing (f :: rest) Hall []). reflexivity.
Qed.

(** X20.  When the files are saved and the record cannot be read, or has
    at most 300 samples, the route answers with the analysis of the
    simulated signal (or with status 500 if that fails too). *)
Theorem unreadable_or_short_record_is_simulated
  (file : list UploadFile) (paths : list string) :
  makedirs = Return tt ->
  for_each file (save_body record_dir save_file) [] = Return paths ->
  paths <> [] ->
  (exists e, rdrecord (record_path_of paths) = Raise e)
  \/ (exists signal,
        rdrecord (record_path_of paths) = Return signal
        /\ (List.length signal <= 300)%nat) ->
  upload_ecg_files render_plot load_ecg_model cfg record_dir makedirs
    save_file record_path_of rdrecord test_signal file
  = try_except
      (analyze_simulated render_plot load_ecg_model cfg test_signal)
      (fun _ => Raise (HTTPException 500)).
Proof.
  intros Hmk Hsave Hpaths Hrec. unfold upload_ecg_files.
  destruct file as [| f rest]; [simpl in Hsave; congruence |].
  rewrite Hmk. cbn [bind]. rewrite Hsave. cbn [bind].
  destruct paths as [| p0 paths']; [contradiction |].
  destruct Hrec as [(e & ->) | (signal & -> & HN)]; cbn [bind].
  - reflexivity.
  - destruct (analyze_record_short signal HN) as (e & ->). reflexivity.
Qed.

(** X21.  With a plot that works, positive settings and a classifier
    within its contract, the simulated signal of 2000 samples gives six
    segments, numbered 1 to 6, and the response carries the note. *)
Theorem simulated_analysis_has_six_segments :
  plot_total render_plot ->
  kalman_settings_positive cfg ->
  model_well_formed load_ecg_model ->
  List.length test_signal = 2000%nat ->
  exists resp,
    analyze_simulated render_plot load_ecg_model cfg test_signal = Return resp
    /\ map segment (predictions resp) = [1; 2; 3; 4; 5; 6]%Z
    /\ calculate_final_prediction (predictions resp)
       = Return (final_prediction resp)
    /\ note resp = Some "Using simulated ECG data due to processing error".
Proof.
  intros Hplot Hpos Hwf HN.
  destruct (analysis_succeeds test_signal Hplot Hpos Hwf)
    as (d & g & results & agg & Hproc & Hres & Hlen & Hnum & _ & Hagg);
    [lia |].
  eexists. unfold analyze_simulated.
  rewrite Hproc. cbn [bind]. rewrite Hres. cbn [bind]. rewrite Hagg. cbn [bind].
  split; [reflexivity |]. cbn [predictions final_prediction note].
  rewrite HN in Hlen. change ((2000 - 1) / 300)%nat with 6%nat in Hlen.
  rewrite Hlen in Hnum.
  repeat split; assumption.
Qed.

(** X22.  With the files saved, a record of more than 300 samples, a plot
    that works, positive settings and a classifier within its contract, the
    route returns the analysis of the record: no note, [(N - 1) / 300]
    predictions, and their aggregate. *)
Theorem upload_of_a_long_record
  (file : list UploadFile) (paths : list string) (signal : list Q) :
  makedirs = Return tt ->
  for_each file (save_body record_dir save_file) [] = Return paths ->
  paths <> [] ->
  rdrecord (record_path_of paths) = Return signal ->
  (300 < List.length signal)%nat ->
  plot_total render_plot ->
  kalman_settings_positive cfg ->
  model_well_formed load_ecg_model ->
  exists resp,
    upload_ecg_files render_plot load_ecg_model cfg record_dir makedirs
      save_file record_path_of rdrecord test_signal file = Return resp
    /\ note resp = None
    /\ List.length (predictions resp) = ((List.length signal - 1) / 300)%nat
    /\ calculate_final_prediction (predictions resp)
       = Return (final_prediction resp).
Proof.
  intros Hmk Hsave Hpaths Hrec HN Hplot Hpos Hwf.
  destruct (analysis_succeeds signal Hplot Hpos Hwf HN)
    as (d & g & results & agg & Hproc & Hres & Hlen & _ & Hne & Hagg).
  eexists. unfold upload_ecg_files.
  destruct file as [| f rest]; [simpl in Hsave; congruence |].
  rewrite Hmk. cbn [bind]. rewrite Hsave. cbn [bind].
  destruct paths as [| p0 paths']; [contradiction |].
  rewrite Hrec. cbn [bind]. unfold analyze_record.
  rewrite Hproc. cbn [bind]. rewrite Hres. cbn [bind].
  destruct results as [| r0 results']; [contradiction |].
  rewrite Hagg. cbn [bind try_except].
  split; [reflexivity |]. cbn [predictions final_prediction note].
  repeat split; assumption.
Qed.

End UploadFacts.

Lemma upload_failures_are_500_witness :
  HTTPException 500 = HTTPException 500.
Proof.
  apply (upload_failures_are_500 plot_ok no_model settings "rec" (Return tt)
           save_ok first_path (fun _ => Raise RuntimeError) (repeat 0 2000) []).
  reflexivity.
Defined.

Lemma unusable_upload_is_500_witness :
  upload_ecg_files plot_ok no_model settings "rec" (Return tt) save_ok
    first_path (fun _ => Return (repeat 0 2000)) (repeat 0 2000) [unnamed_file]
  = Raise (HTTPException 500).
Proof.
  apply (unusable_upload_is_500 plot_ok no_model settings "rec" (Return tt)
           save_ok first_path (fun _ => Return (repeat 0 2000)) (repeat 0 2000)
           [unnamed_file]).
  constructor; [left; reflexivity | constructor].
Defined.

Lemma unreadable_or_short_record_is_simulated_witness :
  upload_ecg_files plot_ok no_model settings "rec" (Return tt) save_ok
    first_path (fun _ => Return (repeat 0 300)) (repeat 0 2000) one_record
  = try_except
      (analyze_simulated plot_ok no_model settings (repeat 0 2000))
      (fun _ => Raise (HTTPException 500)).
Proof.
  apply (unreadable_or_short_record_is_simulated plot_ok no_model settings
           "rec" (Return tt) save_ok first_path
           (fun _ => Return (repeat 0 300)) (repeat 0 2000) one_record
           ["rec/100.dat"; "rec/100.hea"]).
  - reflexivity.
  - reflexivity.
  - discriminate.
  - right. exists (repeat 0 300). split; [reflexivity |].
    rewrite repeat_length. lia.
Defined.

Lemma simulated_analysis_has_six_segments_witness :
  exists resp,
    analyze_simulated plot_ok no_model settings (repeat 0 2000) = Return resp
    /\ map segment (predictions resp) = [1; 2; 3; 4; 5; 6]%Z
    /\ calculate_final_prediction (predictions resp)
       = Return (final_prediction resp)
    /\ note resp = Some "Using simulated ECG data due to processing error".
Proof.
  apply (simulated_analysis_has_six_segments plot_ok no_model settings
           (repeat 0 2000)).
  - intros figsize a b. exists "png". reflexivity.
  - repeat split.
  - intros model segment c ps H. discriminate H.
  - apply repeat_length.
Defined.

Lemma upload_of_a_long_record_witness :
  exists resp,
    upload_ecg_files plot_ok no_model settings "rec" (Return tt) save_ok
      first_path (fun _ => Return mixed_signal) (repeat 0 2000) one_record
    = Return resp
    /\ note resp = None
    /\ List.length (predictions resp)
       = ((List.length mixed_signal - 1) / 300)%nat
    /\ calculate_final_prediction (predictions resp)
       = Return (final_prediction resp).
Proof.
  apply (upload_of_a_long_record plot_ok no_model settings "rec" (Return tt)
           save_ok first_path (fun _ => Return mixed_signal) (repeat 0 2000)
           one_record ["rec/100.dat"; "rec/100.hea"] mixed_signal).
  - reflexivity.
  - reflexivity.
  - discriminate.
  - reflexivity.
  - unfold mixed_signal. rewrite length_app, !repeat_length. lia.
  - intros figsize a b. exists "png". reflexivity.
  - repeat split.
  - intros model segment c ps H. discriminate H.
Defined.

(** X23.  A file whose name is an absolute path is written at that very
    path, outside the record directory, and that path is what the route
    keeps for the record. *)
Theorem absolute_filename_leaves_record_dir
  (record_dir : string) (save_file : UploadFile -> string -> result unit)
  (file_paths : list string) (f : UploadFile) (name : string) :
  filename f = Some name ->
  Paths.startswith name "/" = true ->
  save_body record_dir save_file file_paths f
  = (_ <- save_file f name ;; Return (file_paths ++ [name])%list).
Proof.
  intros Hname Habs. unfold save_body. rewrite Hname.
  destruct (String.eqb_spec name "") as [-> | _]; [discriminate Habs |].
  unfold Paths.path_join. rewrite Habs. reflexivity.
Qed.

Lemma absolute_filename_leaves_record_dir_witness :
  save_body "uploads/ecg/record_1" save_ok []
            {| filename := Some "/etc/cron.d/job" |}
  = (_ <- save_ok {| filename := Some "/etc/cron.d/job" |} "/etc/cron.d/job" ;;
     Return ([] ++ ["/etc/cron.d/job"])%list).
Proof.
  apply (absolute_filename_leaves_record_dir "uploads/ecg/record_1" save_ok []
           {| filename := Some "/etc/cron.d/job" |} "/etc/cron.d/job");
    reflexivity.
Defined.

(** ** The aggregation does not depend on the order of the segments *)

Lemma Qsum_Permutation (xs ys : list Q) :
  Permutation xs ys -> Qsum xs == Qsum ys.
Proof.
  induction 1 as [| x xs ys _ IH | x y xs | xs ys zs _ IH1 _ IH2]; simpl.
  - reflexivity.
  - now rewrite IH.
  - ring.
  - now rewrite IH1.
Qed.

Lemma occurrences_Permutation (l : string)
  (predictions predictions' : list SegmentResult) :
  Permutation predictions predictions' ->
  occurrences l predictions' = occurrences l predictions.
Proof.
  intros HP. unfold occurrences. symmetry.
  apply (Permutation_count_occ string_dec). now apply Permutation_map.
Qed.

Lemma final_class_is_maximal
  (predictions : list SegmentResult) (agg : AggregateResult) :
  calculate_final_prediction predictions = Return agg ->
  forall l : string,
    (occurrences l predictions <= occurrences (final_class agg) predictions)%nat.
Proof.
  intros H l.
  pose proof (calculate_final_prediction_class predictions agg H) as Hmax.
  cbv zeta in Hmax.
  apply py_max_split in Hmax as (pre & post & Hkeys & Hpre & Hpost).
  rewrite Forall_forall in Hpre, Hpost.
  unfold occurrences.
  rewrite <- !counter_getitem_Counter_of.
  destruct (in_dec string_dec l (map prediction predictions)) as [Hl | Hl].
  - apply in_keys_Counter_of in Hl. rewrite Hkeys in Hl.
    apply in_app_or in Hl. destruct Hl as [Hl | [<- | Hl]].
    + apply Hpre in Hl. lia.
    + lia.
    + now apply Hpost in Hl.
  - rewrite (counter_getitem_Counter_of _ l).
    apply (count_occ_not_In string_dec) in Hl. rewrite Hl. lia.
Qed.

(** What [average_probabilities] holds, for any vectors the aggregation
    accepts: the sum of what the loop added for the label, divided by the
    number of segments. *)
Lemma calculate_final_prediction_average
  (predictions : list SegmentResult) (agg : AggregateResult) :
  calculate_final_prediction predictions = Return agg ->
  forall l : string,
    prob_of l (average_probabilities agg)
    == Qsum (map (fun r => contribution l (probabilities r)) predictions)
       / inject_Z (Z.of_nat (List.length predictions)).
Proof.
  intros H l.
  destruct (calculate_final_prediction_confidence _ _ H) as [Hne _].
  pose proof (length_positive predictions Hne) as Hn.
  unfold calculate_final_prediction in H.
  apply bind_Return_inv in H as (w & _ & H).
  apply bind_Return_inv in H as (r & _ & H).
  apply bind_Return_inv in H as (total & Htotal & H).
  apply bind_Return_inv in H as (avg & Havg & H).
  injection H as <-. cbn [average_probabilities].
  rewrite average_spec in Havg by lra. injection Havg as <-.
  assert (Hincl : Forall (fun r => incl (keys (probabilities r))
                                        (keys (map (fun cls => (cls, 0)) LABELS)))
                         predictions).
  { destruct (Forall_Exists_dec _
                (fun r => incl_dec string_dec (keys (probabilities r))
                            (keys (map (fun cls => (cls, 0)) LABELS)))
                predictions) as [Hall | Hex]; [exact Hall |].
    rewrite (add_vectors_foreign predictions _ Hex) in Htotal.
    discriminate Htotal. }
  destruct (add_vectors_spec predictions _ Hincl) as (total' & Htotal' & _ & Hget).
  rewrite Htotal in Htotal'. injection Htotal' as <-.
  unfold prob_of at 1. rewrite dict_get_map_values.
  specialize (Hget l). rewrite prob_of_zero_dict in Hget.
  unfold prob_of in Hget.
  destruct (dict_get total l) as [x |]; simpl.
  - apply Qdiv_comp; [lra | reflexivity].
  - assert (E : Qsum (map (fun r => contribution l (probabilities r))
                          predictions) == 0) by lra.
    rewrite E. unfold Qdiv. ring.
Qed.

(** X24.  The order of the segment results matters for the tie-break
    only: on a reordering of the same results the aggregation gives the
    same confidence, the same count for every label and, in exact
    arithmetic, the same average probability for every label.  (The source
    adds the doubles in segment order, so there two orders can differ in the
    last place of an average.) *)
Theorem aggregation_ignores_segment_order
  (predictions predictions' : list SegmentResult)
  (agg agg' : AggregateResult) :
  Permutation predictions predictions' ->
  calculate_final_prediction predictions = Return agg ->
  calculate_final_prediction predictions' = Return agg' ->
  confidence agg' = confidence agg
  /\ (forall l : string,
        dict_get (distribution agg') l = dict_get (distribution agg) l)
  /\ (forall l : string,
        prob_of l (average_probabilities agg')
        == prob_of l (average_probabilities agg)).
Proof.
  intros HP H H'.
  assert (Hocc : forall l, occurrences l predictions' = occurrences l predictions)
    by (intros l; now apply occurrences_Permutation).
  assert (Hlen : List.length predictions' = List.length predictions)
    by (symmetry; now apply Permutation_length).
  split; [| split].
  - rewrite (proj2 (calculate_final_prediction_confidence _ _ H)).
    rewrite (proj2 (calculate_final_prediction_confidence _ _ H')).
    rewrite Hlen, Hocc.
    pose proof (final_class_is_maximal _ _ H (final_class agg')) as H1.
    pose proof (final_class_is_maximal _ _ H' (final_class agg)) as H2.
    rewrite !Hocc in H2.
    replace (occurrences (final_class agg') predictions)
      with (occurrences (final_class agg) predictions) by lia.
    reflexivity.
  - intros l.
    rewrite (calculate_final_prediction_distribution _ _ H).
    rewrite (calculate_final_prediction_distribution _ _ H').
    rewrite !dict_get_Counter_of.
    fold (occurrences l predictions'). fold (occurrences l predictions).
    now rewrite Hocc.
  - intros l.
    rewrite (calculate_final_prediction_average _ _ H l).
    rewrite (calculate_final_prediction_average _ _ H' l).
    rewrite Hlen. apply Qdiv_comp; [| reflexivity].
    apply Qsum_Permutation. apply Permutation_map. now apply Permutation_sym.
Qed.

Lemma aggregation_ignores_segment_order_witness :
  confidence swapped_aggregate = confidence tie_aggregate
  /\ (forall l : string,
        dict_get (distribution swapped_aggregate) l
        = dict_get (distribution tie_aggregate) l)
  /\ (forall l : string,
        prob_of l (average_probabilities swapped_aggregate)
        == prob_of l (average_probabilities tie_aggregate)).
Proof.
  apply (aggregation_ignores_segment_order tie_predictions swapped_predictions
           tie_aggregate swapped_aggregate).
  - apply perm_swap.
  - vm_compute. reflexivity.
  - vm_compute. reflexivity.
Defined.

(** The exchange changes the winner of the tie, and nothing else. *)
Example swapped_final_class :
  final_class tie_aggregate = "Atrial Premature Beat (A)"
  /\ final_class swapped_aggregate = "Normal Beat (N)".
Proof. split; reflexivity. Qed.

(** ** Where binary64 departs from exact arithmetic *)


(** The same step over [Q]: the gain stays below 1 and the covariance
    above 0. *)
Example gain_below_one_exactly :
  exists st : KalmanStep,
    kalman_update 1 (1 # 1152921504606846976) (1 # 2) 1 (1 # 2) = Return st
    /\ step_K st < 1 /\ 0 < step_p st.
Proof.
  eexists. split; [vm_compute; reflexivity |]. split; reflexivity.
Qed.

(** With [Q = 1.5] and [R = 2^-51] the covariance after the first
    iteration is above [R] over binary64. *)
Example covariance_above_noise_in_binary64 :
  exists st : F64.KalmanStep,
    F64.kalman_update (F64.b64 3 (-1)) (F64.b64 1 (-51))
                      F64.zero F64.one F64.zero = Return st
    /\ F64.ltb (F64.b64 1 (-51)) (F64.step_p st) = true.
Proof.
  eexists. split; [vm_compute; reflexivity |]. vm_compute. reflexivity.
Qed.

(** 87 segments of 160: the double [(87 / 160) * 100] lies below
    54.375 = 435 / 8, so the source rounds it to 54.37; the exact
    percentage is 54.375, which [round2] takes to 54.38. *)
Example percentage_of_87_in_160 :
  F64.ltb (F64.mul (F64.fdiv (F64.b64 87 0) (F64.b64 160 0)) (F64.b64 100 0))
          (F64.b64 435 (-3)) = true
  /\ round2 (87 / 160 * 100) == 5438 # 100.
Proof. split; vm_compute; reflexivity. Qed.

(** Doubles added in two orders: the means of 0.1, 0.2 and 0.3 (the
    doubles nearest to them) differ. *)
Example mean_depends_on_order_in_binary64 :
  let d1 := F64.b64 7205759403792794 (-56) in
  let d2 := F64.b64 7205759403792794 (-55) in
  let d3 := F64.b64 5404319552844595 (-54) in
  let mean a b c :=
    F64.fdiv (F64.add (F64.add (F64.add F64.zero a) b) c) (F64.b64 3 0) in
  F64.eqb (mean d1 d2 d3) (mean d3 d2 d1) = false.
Proof. vm_compute. reflexivity. Qed.

(** ** The fallback, and the window the loop does not reach *)

Lemma final_class_occurs
  (predictions : list SegmentResult) (agg : AggregateResult) :
  calculate_final_prediction predictions = Return agg ->
  In (final_class agg) (map prediction predictions).
Proof.
  intros H.
  pose proof (calculate_final_prediction_class predictions agg H) as Hmax.
  cbv zeta in Hmax.
  apply py_max_split in Hmax as (pre & post & Hkeys & _ & _).
  apply in_keys_Counter_of. rewrite Hkeys. apply in_elt.
Qed.

(** On vectors over the five labels the aggregation returns, and what it
    returns is the aggregate of all the results. *)
Lemma calculate_final_prediction_aggregate (results : list SegmentResult) :
  results <> [] ->
  Forall probs_ok results ->
  exists agg : AggregateResult,
    calculate_final_prediction results = Return agg
    /\ aggregate_of results agg.
Proof.
  intros Hne Hok.
  destruct (calculate_final_prediction_spec results Hne Hok)
    as (agg & Hagg & Hkeys & Hmean & _).
  exists agg. split; [exact Hagg |].
  unfold aggregate_of. repeat split.
  - exact (final_class_occurs _ _ Hagg).
  - exact (final_class_is_maximal _ _ Hagg).
  - intros l. rewrite (calculate_final_prediction_distribution _ _ Hagg).
    apply dict_get_Counter_of.
  - rewrite (calculate_final_prediction_distribution _ _ Hagg).
    now rewrite list_sum_Counter_of, length_map.
  - exact Hkeys.
  - exact Hmean.
Qed.

(** C6 at 600 samples.  The signal has two full windows; the classifier
    raises on the first and answers on the second.  The loop visits the
    first window only: the results are the one fallback entry, the aggregate
    counts one Normal segment, and the answer for the second window is
    nowhere in it. *)
Theorem succeeding_window_is_never_classified
  (model : Model) (denoised_data : list Q) (c : nat) (ps : list Q) :
  List.length denoised_data = 600%nat ->
  is_return (model (window denoised_data 0)) = false ->
  model (window denoised_data 1) = Return (c, ps) ->
  segment_results (Return (Some model)) denoised_data
  = Return [fallback_entry 1]
  /\ exists agg : AggregateResult,
       calculate_final_prediction [fallback_entry 1] = Return agg
       /\ final_class agg = "Normal Beat (N)"
       /\ distribution agg = [("Normal Beat (N)", 1%nat)].
Proof.
  intros HN Hfail _. split.
  - unfold segment_results. rewrite range_segments, HN.
    change (segment_count 600) with 1%nat. cbn [seq map for_each].
    rewrite (segment_body_unfold (Return (Some model)) denoised_data [] 0)
      by (rewrite HN; simpl; lia).
    rewrite (predict_segment_fallback (Return (Some model))
               (window denoised_data 0) Hfail).
    reflexivity.
  - eexists. split; [vm_compute; reflexivity |]. split; reflexivity.
Qed.

Lemma succeeding_window_is_never_classified_witness :
  segment_results (Return (Some flaky_model)) two_windows
  = Return [fallback_entry 1]
  /\ exists agg : AggregateResult,
       calculate_final_prediction [fallback_entry 1] = Return agg
       /\ final_class agg = "Normal Beat (N)"
       /\ distribution agg = [("Normal Beat (N)", 1%nat)].
Proof.
  apply (succeeding_window_is_never_classified flaky_model two_windows
           1%nat [1 # 10; 9 # 10; 0; 0; 0]).
  - vm_compute. reflexivity.
  - vm_compute. reflexivity.
  - vm_compute. reflexivity.
Defined.

(** X25.  When the classifier is unavailable or raises on a segment,
    [predict_segment] returns class 0, which is Normal, with the vector
    [1,0,0,0,0]; when the classifier answers, its answer is returned.  With
    a classifier that keeps its contract where it answers, the loop over a
    signal of N > 300 samples never raises: it yields one entry for each of
    the [(N - 1) / 300] windows it visits, each holding what
    [predict_segment] said of that window, and the aggregation returns the
    aggregate of all these entries (the means in exact arithmetic). *)
Theorem classifier_failure_is_segment_local
  (load_ecg_model : result (option Model)) :
  (forall segment : list Q,
      classifier_fails load_ecg_model segment ->
      predict_segment load_ecg_model segment = Return (0%nat, [1; 0; 0; 0; 0])
      /\ class_name 0 = Return "Normal Beat (N)")
  /\ (forall (model : Model) (segment : list Q) (c : nat) (ps : list Q),
        load_ecg_model = Return (Some model) ->
        model segment = Return (c, ps) ->
        predict_segment load_ecg_model segment = Return (c, ps))
  /\ (forall denoised_data : list Q,
        model_well_formed load_ecg_model ->
        (300 < List.length denoised_data)%nat ->
        exists (results : list SegmentResult) (agg : AggregateResult),
          segment_results load_ecg_model denoised_data = Return results
          /\ List.length results
             = ((List.length denoised_data - 1) / 300)%nat
          /\ (forall k : nat,
                (k < List.length results)%nat ->
                exists r : SegmentResult,
                  nth_error results k = Some r
                  /\ entry_of load_ecg_model denoised_data k r)
          /\ calculate_final_prediction results = Return agg
          /\ aggregate_of results agg).
Proof.
  split; [| split].
  - intros segment Hfail. split; [| reflexivity].
    exact (predict_segment_fallback load_ecg_model segment Hfail).
  - exact (predict_segment_success load_ecg_model).
  - intros denoised_data Hwf HN.
    destruct (segment_results_total load_ecg_model denoised_data Hwf)
      as (results & Hres & Hall).
    assert (Hlen : List.length results
                   = segment_count (List.length denoised_data)).
    { apply Forall2_length in Hall. now rewrite length_seq in Hall. }
    assert (Hne : results <> []).
    { intros ->. simpl in Hlen. rewrite segment_count_nat in Hlen.
      symmetry in Hlen. apply Nat.div_small_iff in Hlen; lia. }
    destruct (calculate_final_prediction_aggregate results Hne)
      as (agg & Hagg & Hof).
    { clear - Hall. induction Hall as [| k r ks rs Hr _ IH]; constructor.
      - exact (entry_of_probs_ok _ _ _ _ Hr).
      - exact IH. }
    exists results, agg. repeat split; try assumption.
    + now rewrite Hlen, segment_count_nat.
    + intros k Hk. rewrite Hlen in Hk.
      exact (Forall2_seq_nth _ _ 0%nat results Hall k Hk).
    + apply Hof.
    + apply Hof.
    + apply Hof.
    + apply Hof.
    + apply Hof.
    + apply Hof.
Qed.

Lemma classifier_failure_is_segment_local_witness :
  (predict_segment (Return (Some flaky_model)) (window mixed_signal 0)
   = Return (0%nat, [1; 0; 0; 0; 0])
   /\ class_name 0 = Return "Normal Beat (N)")
  /\ predict_segment (Return (Some flaky_model)) (window mixed_signal 1)
     = Return (1%nat, [1 # 10; 9 # 10; 0; 0; 0])
  /\ exists (results : list SegmentResult) (agg : AggregateResult),
       segment_results (Return (Some flaky_model)) mixed_signal = Return results
       /\ List.length results = ((List.length mixed_signal - 1) / 300)%nat
       /\ (forall k : nat,
             (k < List.length results)%nat ->
             exists r : SegmentResult,
               nth_error results k = Some r
               /\ entry_of (Return (Some flaky_model)) mixed_signal k r)
       /\ calculate_final_prediction results = Return agg
       /\ aggregate_of results agg.
Proof.
  destruct (classifier_failure_is_segment_local (Return (Some flaky_model)))
    as (Hfail & Hsucc & Hrun).
  split; [| split].
  - apply Hfail. vm_compute. reflexivity.
  - apply (Hsucc flaky_model); [reflexivity | vm_compute; reflexivity].
  - apply Hrun.
    + intros model segment c ps Hload Hm. injection Hload as <-.
      unfold flaky_model in Hm.
      destruct segment as [| x rest]; [discriminate Hm |].
      destruct (Qle_bool x 0); [discriminate Hm |].
      injection Hm as <- <-. simpl. split; lia.
    + unfold mixed_signal. rewrite length_app, !repeat_length. lia.
Defined.

(** On [mixed_signal] both windows are visited: a fallback entry, then the
    classifier's answer. *)
Example mixed_signal_results :
  exists r1 r2 : SegmentResult,
    segment_results (Return (Some flaky_model)) mixed_signal = Return [r1; r2]
    /\ prediction r1 = "Normal Beat (N)"
    /\ prediction r2 = "Atrial Premature Beat (A)".
Proof. do 2 eexists. split; [vm_compute; reflexivity |]. split; reflexivity. Qed.
